(** * ai_miner: the block-construction and proof-of-work pipeline

    A shallow embedding of [src/utils/block.py], [src/utils/merkle.py],
    [src/config/constants.py] and [src/environments/simple_bitcoin_env.py],
    with the properties of the mining step proved over it.

    Python integers are [Z]; [bytes] values are [list byte]; [str] values are
    [string]; a raised exception is the [Raise] case of [result]. *)

From Stdlib Require Import ZArith List String Ascii Bool Lia.
From Stdlib.Strings Require Import Byte.
From Stdlib Require Import Floats.SpecFloat.
From Equations Require Import Equations.
From stdpp Require Import gmap.
Import ListNotations.

Local Open Scope Z_scope.

(** ** Exceptions *)

Inductive exn : Set :=
| ValueError
| StructError
| OverflowError
| IndexError.

Inductive result (A : Type) : Type :=
| Ok (a : A)
| Raise (e : exn).

Arguments Ok {A} a.
Arguments Raise {A} e.

Definition bind {A B : Type} (m : result A) (k : A -> result B) : result B :=
  match m with
  | Ok a => k a
  | Raise e => Raise e
  end.

Notation "'let*' x ':=' m 'in' k" := (bind m (fun x => k))
  (at level 10, x pattern, m at level 100, k at level 200).

Definition returns {A : Type} (m : result A) : Prop := exists a, m = Ok a.

Fixpoint mapM {A B : Type} (f : A -> result B) (l : list A) : result (list B) :=
  match l with
  | [] => Ok []
  | x :: l' =>
      let* y := f x in
      let* ys := mapM f l' in
      Ok (y :: ys)
  end.

(** ** Bytes, hexadecimal text and integers *)

Module py.

Definition byte_of_Z (z : Z) : byte :=
  match Byte.of_N (Z.to_N (z mod 256)) with
  | Some b => b
  | None => Byte.x00
  end.

Definition Z_of_byte (b : byte) : Z := Z.of_N (Byte.to_N b).

(** [i.to_bytes(n, 'little')] without the range check: the [n] low bytes. *)
Fixpoint le_bytes (n : nat) (i : Z) : list byte :=
  match n with
  | O => []
  | S n' => byte_of_Z (Z.land i 255) :: le_bytes n' (Z.shiftr i 8)
  end.

(** [i.to_bytes(n, 'little')]: OverflowError outside [0, 256^n). *)
Definition to_bytes_little (n : nat) (i : Z) : result (list byte) :=
  if (0 <=? i) && (i <? 256 ^ Z.of_nat n) then Ok (le_bytes n i)
  else Raise OverflowError.

(** [struct.pack("<I", v)] and [struct.pack("<L", v)]: four bytes, little
    endian; struct.error outside [0, 2^32). *)
Definition struct_pack_u32 (v : Z) : result (list byte) :=
  if (0 <=? v) && (v <? 2 ^ 32) then Ok (le_bytes 4 v)
  else Raise StructError.

(** [struct.pack("<Q", v)]. *)
Definition struct_pack_u64 (v : Z) : result (list byte) :=
  if (0 <=? v) && (v <? 2 ^ 64) then Ok (le_bytes 8 v)
  else Raise StructError.

(** [bytes([n])]: ValueError outside [range(256)]. *)
Definition bytes_of_int (n : Z) : result (list byte) :=
  if (0 <=? n) && (n <? 256) then Ok [byte_of_Z n]
  else Raise ValueError.

Definition hex_digit (n : Z) : ascii :=
  nth (Z.to_nat n) (list_ascii_of_string "0123456789abcdef") "0"%char.

Definition hex_value (c : ascii) : option Z :=
  let n := Z.of_N (N_of_ascii c) in
  if (48 <=? n) && (n <=? 57) then Some (n - 48)
  else if (97 <=? n) && (n <=? 102) then Some (n - 87)
  else if (65 <=? n) && (n <=? 70) then Some (n - 55)
  else None.

(** ASCII white space, which [bytes.fromhex] skips between bytes. *)
Definition is_space (c : ascii) : bool :=
  let n := Z.of_N (N_of_ascii c) in
  (n =? 32) || ((9 <=? n) && (n <=? 13)).

(** [bytes.hex()]: two lower-case digits per byte. *)
Fixpoint hex (bs : list byte) : string :=
  match bs with
  | [] => EmptyString
  | b :: bs' =>
      String (hex_digit (Z.shiftr (Z_of_byte b) 4))
        (String (hex_digit (Z.land (Z_of_byte b) 15)) (hex bs'))
  end.

(** [bytes.fromhex(s)]: ValueError on a character that is not a hexadecimal
    digit and on a byte with one digit only. *)
Fixpoint fromhex (s : string) : result (list byte) :=
  match s with
  | EmptyString => Ok []
  | String c s' =>
      if is_space c then fromhex s'
      else
        match s' with
        | EmptyString => Raise ValueError
        | String d s'' =>
            match hex_value c, hex_value d with
            | Some hi, Some lo =>
                let* bs := fromhex s'' in
                Ok (byte_of_Z (16 * hi + lo) :: bs)
            | _, _ => Raise ValueError
            end
        end
  end.

Fixpoint int16_digits (acc : Z) (s : string) : result Z :=
  match s with
  | EmptyString => Ok acc
  | String c s' =>
      match hex_value c with
      | Some d => int16_digits (16 * acc + d) s'
      | None => Raise ValueError
      end
  end.

(** [int(s, 16)] on a text of hexadecimal digits, the only texts the
    environment parses (the output of [bytes.hex()]); the empty text is a
    ValueError. *)
Definition int16 (s : string) : result Z :=
  match s with
  | EmptyString => Raise ValueError
  | _ => int16_digits 0 s
  end.

(** [a == b] on [bytes]. *)
Fixpoint bytes_eqb (a b : list byte) : bool :=
  match a, b with
  | [], [] => true
  | x :: a', y :: b' => Byte.eqb x y && bytes_eqb a' b'
  | _, _ => false
  end.

(** [str.encode()] on ASCII text. *)
Definition encode (s : string) : list byte := list_byte_of_string s.

(** [l[i]] with Python's negative indices; IndexError out of range. *)
Definition index {A : Type} (l : list A) (i : Z) : result A :=
  let n := Z.of_nat (length l) in
  let j := if i <? 0 then i + n else i in
  if (0 <=? j) && (j <? n) then
    match nth_error l (Z.to_nat j) with
    | Some x => Ok x
    | None => Raise IndexError
    end
  else Raise IndexError.

(** [l[:n]], where a negative [n] counts from the end. *)
Definition slice_to {A : Type} (l : list A) (n : Z) : list A :=
  if n <? 0 then firstn (length l - Z.to_nat (- n)) l
  else firstn (Z.to_nat n) l.

(** [range(n)]: empty for [n <= 0]. *)
Definition range (n : Z) : list Z := map Z.of_nat (seq 0 (Z.to_nat n)).

(** [range(start, stop, step)] for a positive [step]. *)
Definition range_step (start stop step : Z) : list Z :=
  map (fun k => start + step * Z.of_nat k)
      (seq 0 (Z.to_nat ((stop - start + step - 1) / step))).

(** [s * n] on [str]. *)
Fixpoint str_repeat (s : string) (n : nat) : string :=
  match n with
  | O => EmptyString
  | S n' => String.append s (str_repeat s n')
  end.

(** A Python number: an [int], or a [float] as an IEEE 754 binary64 value. *)
Inductive number : Set :=
| Int (z : Z)
| Float (f : spec_float).

(** [a / 2**k] on [int]: true division rounds the exact quotient to the
    nearest binary64 value, ties to even; the divisor being a power of two,
    the quotient is [a] scaled by [2^-k]. *)
Definition truediv_pow2 (a k : Z) : spec_float :=
  binary_normalize 53 1024 a (- k) false.

(** [-x] on [float]. *)
Definition float_neg (x : spec_float) : spec_float := SFopp x.

(** [x == z] for an [int] [z] that binary64 holds exactly (below 2^53 in
    magnitude), as the comparison with 100 is. *)
Definition eq_int (x : number) (z : Z) : bool :=
  match x with
  | Int a => a =? z
  | Float f => SFeqb f (binary_normalize 53 1024 z 0 false)
  end.

(** [x <= 0.0] on [float]: false for a NaN. *)
Definition float_nonpositive (x : spec_float) : bool :=
  match x with
  | S754_zero _ => true
  | S754_infinity s => s
  | S754_finite s _ _ => s
  | S754_nan => false
  end.

End py.

(** The values [struct.pack] takes for a 32-bit unsigned field. *)
Definition u32 (v : Z) : Prop := 0 <= v < 2 ^ 32.

(** ** [hashlib.sha256]

    The standard library's SHA-256 (FIPS 180-4) over 32-bit words held in
    [Z]; the repository calls it through [hashlib]. *)

Module hashlib.

Definition w32 (x : Z) : Z := Z.land x 0xffffffff.

Definition add32 (x y : Z) : Z := w32 (x + y).

Definition rotr (n x : Z) : Z :=
  Z.lor (Z.shiftr x n) (w32 (Z.shiftl x (32 - n))).

Definition Ch (x y z : Z) : Z :=
  Z.lxor (Z.land x y) (Z.land (Z.lxor x 0xffffffff) z).

Definition Maj (x y z : Z) : Z :=
  Z.lxor (Z.lxor (Z.land x y) (Z.land x z)) (Z.land y z).

Definition Sigma0 (x : Z) : Z := Z.lxor (Z.lxor (rotr 2 x) (rotr 13 x)) (rotr 22 x).
Definition Sigma1 (x : Z) : Z := Z.lxor (Z.lxor (rotr 6 x) (rotr 11 x)) (rotr 25 x).
Definition sigma0 (x : Z) : Z := Z.lxor (Z.lxor (rotr 7 x) (rotr 18 x)) (Z.shiftr x 3).
Definition sigma1 (x : Z) : Z := Z.lxor (Z.lxor (rotr 17 x) (rotr 19 x)) (Z.shiftr x 10).

(** The constants of FIPS 180-4 come from the first primes: the round
    constants are the first 32 bits of the fractional parts of the cube roots
    of the first 64 primes, the initial hash value those of the square roots
    of the first 8. *)
Definition is_prime (n : Z) : bool :=
  (1 <? n) &&
  forallb (fun d => negb (n mod d =? 0))
          (List.filter (fun d => d * d <=? n) (map Z.of_nat (seq 2 (Z.to_nat n - 2)))).

Definition primes (count : nat) : list Z :=
  firstn count (List.filter is_prime (map Z.of_nat (seq 2 310))).

(** The integer cube root of [x], bit by bit from bit [bits - 1] down. *)
Fixpoint cube_root (bits : nat) (x r : Z) : Z :=
  match bits with
  | O => r
  | S b =>
      let r' := r + 2 ^ Z.of_nat b in
      cube_root b x (if r' * r' * r' <=? x then r' else r)
  end.

Definition K256 : list Z :=
  Eval vm_compute in map (fun p => w32 (cube_root 40 (p * 2 ^ 96) 0)) (primes 64).

(** The eight working variables, or the eight words of the hash value. *)
Record regs : Set := Regs { ra : Z; rb : Z; rc : Z; rd : Z; re : Z; rf : Z; rg : Z; rh : Z }.

Definition H0 : regs :=
  Eval vm_compute in
    match map (fun p => w32 (Z.sqrt (p * 2 ^ 64))) (primes 8) with
    | [a; b; c; d; e; f; g; h] => Regs a b c d e f g h
    | _ => Regs 0 0 0 0 0 0 0 0
    end.

(** One round: [w] is the sliding window of the last sixteen schedule words,
    its head the word of this round. *)
Definition round (st : regs * list Z) (k : Z) : regs * list Z :=
  let '(r, w) := st in
  let wt := nth 0 w 0 in
  let t1 := add32 (add32 (add32 (add32 (rh r) (Sigma1 (re r))) (Ch (re r) (rf r) (rg r))) k) wt in
  let t2 := add32 (Sigma0 (ra r)) (Maj (ra r) (rb r) (rc r)) in
  let wnew := add32 (add32 (add32 (sigma1 (nth 14 w 0)) (nth 9 w 0)) (sigma0 (nth 1 w 0))) wt in
  (Regs (add32 t1 t2) (ra r) (rb r) (rc r) (add32 (rd r) t1) (re r) (rf r) (rg r),
   tl w ++ [wnew]).

Definition compress (h : regs) (block : list Z) : regs :=
  let r := fst (fold_left round K256 (h, block)) in
  Regs (add32 (ra h) (ra r)) (add32 (rb h) (rb r)) (add32 (rc h) (rc r))
       (add32 (rd h) (rd r)) (add32 (re h) (re r)) (add32 (rf h) (rf r))
       (add32 (rg h) (rg r)) (add32 (rh h) (rh r)).

(** Big-endian bytes of a word of [n] bytes, and back. *)
Fixpoint be_bytes (n : nat) (x : Z) : list byte :=
  match n with
  | O => []
  | S n' => py.byte_of_Z (Z.shiftr x (8 * Z.of_nat n')) :: be_bytes n' x
  end.

Definition be_word (bs : list byte) : Z :=
  fold_left (fun acc b => 256 * acc + py.Z_of_byte b) bs 0.

(** The message followed by 0x80, zero bytes up to 56 modulo 64, and the bit
    length on eight bytes. *)
Definition pad (msg : list byte) : list byte :=
  let len := Z.of_nat (length msg) in
  let zeros := Z.to_nat ((55 - len) mod 64) in
  msg ++ [py.byte_of_Z 0x80] ++ repeat Byte.x00 zeros ++ be_bytes 8 (8 * len).

(** Cuts a list in groups of [Datatypes.S n]; [fuel] bounds the number of groups. *)
Fixpoint chunks {A : Type} (fuel : nat) (n : nat) (l : list A) : list (list A) :=
  match fuel, l with
  | O, _ => []
  | _, [] => []
  | Datatypes.S fuel', _ => firstn (Datatypes.S n) l :: chunks fuel' n (skipn (Datatypes.S n) l)
  end.

Definition words_of_block (bl : list byte) : list Z :=
  map be_word (chunks 16 3 bl).

Definition digest_of (r : regs) : list byte :=
  flat_map (be_bytes 4) [ra r; rb r; rc r; rd r; re r; rf r; rg r; rh r].

Definition sha256 (msg : list byte) : list byte :=
  let p := pad msg in
  let blocks := chunks (length p) 63 p in
  digest_of (fold_left (fun h bl => compress h (words_of_block bl)) blocks H0).

End hashlib.

(** ** [base58.b58decode_check]

    The decoder of the [base58] package, on text without trailing white
    space: the digits give a big-endian number, each leading ['1'] a zero
    byte, and the last four bytes are the head of the double SHA-256 of the
    rest. *)

Module base58.

Definition alphabet : list ascii :=
  list_ascii_of_string "123456789ABCDEFGHJKLMNPQRSTUVWXYZabcdefghijkmnopqrstuvwxyz".

Fixpoint find_index (c : ascii) (l : list ascii) (i : Z) : option Z :=
  match l with
  | [] => None
  | d :: l' => if Ascii.eqb c d then Some i else find_index c l' (i + 1)
  end.

Fixpoint b58decode_int (acc : Z) (v : list ascii) : result Z :=
  match v with
  | [] => Ok acc
  | c :: v' =>
      match find_index c alphabet 0 with
      | Some d => b58decode_int (58 * acc + d) v'
      | None => Raise ValueError
      end
  end.

Fixpoint lstrip (c : ascii) (v : list ascii) : list ascii :=
  match v with
  | [] => []
  | d :: v' => if Ascii.eqb c d then lstrip c v' else v
  end.

(** [while acc > 0: acc, mod = divmod(acc, 256); result.append(mod)], the
    bytes read in reverse at the end: [out] holds them most significant
    first. *)
Fixpoint int_bytes (fuel : nat) (acc : Z) (out : list byte) : list byte :=
  match fuel with
  | O => out
  | Datatypes.S fuel' =>
      if 0 <? acc then int_bytes fuel' (acc / 256) (py.byte_of_Z (acc mod 256) :: out)
      else out
  end.

Definition b58decode (v : string) : result (list byte) :=
  let v := list_ascii_of_string v in
  let origlen := length v in
  let v := lstrip "1"%char v in
  let newlen := length v in
  let* acc := b58decode_int 0 v in
  Ok (repeat Byte.x00 (origlen - newlen) ++ int_bytes newlen acc []).

Definition b58decode_check (v : string) : result (list byte) :=
  let* result := b58decode v in
  let n := (length result - 4)%nat in
  let check := skipn n result in
  let result := firstn n result in
  let digest := hashlib.sha256 (hashlib.sha256 result) in
  if negb (py.bytes_eqb check (firstn 4 digest)) then Raise ValueError
  else Ok result.

End base58.

(** ** [src/utils/block.py] *)

Module block.

Definition encode_varint (i : Z) : result (list byte) :=
  if i <? 0xfd then py.to_bytes_little 1 i
  else if i <=? 0xffff then
    let* b := py.to_bytes_little 2 i in Ok (py.byte_of_Z 0xfd :: b)
  else if i <=? 0xffffffff then
    let* b := py.to_bytes_little 4 i in Ok (py.byte_of_Z 0xfe :: b)
  else
    let* b := py.to_bytes_little 8 i in Ok (py.byte_of_Z 0xff :: b).

(** [while abs_num: result.append(abs_num & 0xff); abs_num >>= 8]. *)
Fixpoint magnitude_bytes (fuel : nat) (abs_num : Z) (result : list byte) : list byte :=
  match fuel with
  | O => result
  | Datatypes.S fuel' =>
      if abs_num =? 0 then result
      else magnitude_bytes fuel' (Z.shiftr abs_num 8)
             (result ++ [py.byte_of_Z (Z.land abs_num 0xff)])
  end.

(** The fuel of the loop of [encode_script_num]: one more than the position
    of the highest bit, although each turn drops eight bits. *)
Definition magnitude_fuel (abs_num : Z) : nat := Datatypes.S (Z.to_nat (Z.log2 abs_num)).

Definition encode_script_num (num : Z) : list byte :=
  if num =? 0 then []
  else
    let abs_num := Z.abs num in
    let result := magnitude_bytes (magnitude_fuel abs_num) abs_num [] in
    let last_byte := py.Z_of_byte (List.last result Byte.x00) in
    if negb (Z.land last_byte 0x80 =? 0) then
      result ++ [py.byte_of_Z (if num <? 0 then 0x80 else 0)]
    else if num <? 0 then
      removelast result ++ [py.byte_of_Z (Z.lor last_byte 0x80)]
    else result.

Definition address_to_script_pubkey (address : string) : result (list byte) :=
  let* decoded := base58.b58decode_check address in
  let pubkey_hash := skipn 1 decoded in
  if negb (length pubkey_hash =? 20)%nat then Raise ValueError
  else
    Ok (map py.byte_of_Z [0x76; 0xa9; 0x14] ++ pubkey_hash ++ map py.byte_of_Z [0x88; 0xac]).

Definition default_address : string := "1A1zP1eP5QGefi2DMPTfTL5SLmv7DivfNa".

Definition create_coinbase_tx (block_height extra_nonce : Z) (miner_msg address : string)
  : result (list byte) :=
  let* version := py.struct_pack_u32 1 in
  let tx_in_count := [py.byte_of_Z 1] in
  let prev_out_hash := repeat Byte.x00 32 in
  let prev_out_index := repeat (py.byte_of_Z 0xff) 4 in
  let height_bytes := encode_script_num block_height in
  let* height_len := py.bytes_of_int (Z.of_nat (length height_bytes)) in
  let height_push := height_len ++ height_bytes in
  let* extra_nonce_bytes := py.struct_pack_u32 extra_nonce in
  let extra_data := extra_nonce_bytes ++ py.encode miner_msg in
  let script_sig := height_push ++ extra_data in
  let* script_sig_len := encode_varint (Z.of_nat (length script_sig)) in
  let sequence := repeat (py.byte_of_Z 0xff) 4 in
  let tx_in := prev_out_hash ++ prev_out_index ++ script_sig_len ++ script_sig ++ sequence in
  let tx_out_count := [py.byte_of_Z 1] in
  let* value := py.struct_pack_u64 (50 * 100000000) in
  let* script_pubkey := address_to_script_pubkey address in
  let* script_pubkey_len := encode_varint (Z.of_nat (length script_pubkey)) in
  let tx_out := value ++ script_pubkey_len ++ script_pubkey in
  let lock_time := repeat Byte.x00 4 in
  Ok (version ++ tx_in_count ++ tx_in ++ tx_out_count ++ tx_out ++ lock_time).

Definition txid (tx_bytes : list byte) : string :=
  py.hex (rev (hashlib.sha256 (hashlib.sha256 tx_bytes))).

(** [1 << n]: ValueError ("negative shift count") for a negative [n]. *)
Definition lshift (a n : Z) : result Z :=
  if n <? 0 then Raise ValueError else Ok (Z.shiftl a n).

Definition bits_to_target (bits : Z) : result Z :=
  let exponent := Z.shiftr bits 24 in
  let mantissa := Z.land bits 0xffffff in
  let* p := lshift 1 (8 * (exponent - 3)) in
  let target := mantissa * p in
  Ok target.

Definition serialize_block_header (version : Z) (prev_hash merkle_root : string)
    (timestamp bits nonce : Z) : result (list byte) :=
  let header := [] in
  let* v := py.struct_pack_u32 version in
  let header := header ++ v in
  let* p := py.fromhex prev_hash in
  let header := header ++ rev p in
  let* m := py.fromhex merkle_root in
  let header := header ++ rev m in
  let* t := py.struct_pack_u32 timestamp in
  let header := header ++ t in
  let* b := py.struct_pack_u32 bits in
  let header := header ++ b in
  let* n := py.struct_pack_u32 nonce in
  let header := header ++ n in
  Ok header.

Definition double_sha256 (data : list byte) : list byte :=
  hashlib.sha256 (hashlib.sha256 data).

(** The dictionary [header_fields], with its six keys. *)
Record header_fields : Set := HeaderFields {
  hf_version : Z;
  hf_previousblockhash : string;
  hf_merkleroot : string;
  hf_timestamp : Z;
  hf_bits : Z;
  hf_nonce : Z
}.

Definition compute_hash (h : header_fields) : result string :=
  let* serialized :=
    serialize_block_header (hf_version h) (hf_previousblockhash h) (hf_merkleroot h)
      (hf_timestamp h) (hf_bits h) (hf_nonce h) in
  let hash_val := py.hex (rev (double_sha256 serialized)) in
  Ok hash_val.

End block.

(** ** [src/utils/merkle.py] *)

Module merkle.

Definition double_sha256 (data : list byte) : list byte :=
  hashlib.sha256 (hashlib.sha256 data).

(** [if len(hashes) % 2 != 0: hashes.append(hashes[-1])]. *)
Definition duplicate_last (hashes : list (list byte)) : result (list (list byte)) :=
  if negb (Z.of_nat (length hashes) mod 2 =? 0) then
    let* last := py.index hashes (-1) in
    Ok (hashes ++ [last])
  else Ok hashes.

(** [for i in range(0, len(hashes), 2):
       new_hashes.append(double_sha256(hashes[i] + hashes[i+1]))]. *)
Definition pair_up (hashes : list (list byte)) : result (list (list byte)) :=
  mapM (fun i =>
          let* lhs := py.index hashes i in
          let* rhs := py.index hashes (i + 1) in
          Ok (double_sha256 (lhs ++ rhs)))
       (py.range_step 0 (Z.of_nat (length hashes)) 2).

(** One turn of the [while] loop. *)
Definition next_level (hashes : list (list byte)) : result (list (list byte)) :=
  let* hashes := duplicate_last hashes in
  pair_up hashes.

Definition inspect {A : Type} (a : A) : {b : A | a = b} := exist _ a eq_refl.

(** [while len(hashes) > 1: ...]: the loop ends since a level of two or more
    hashes is followed by a shorter one. *)
Equations? merkle_while (hashes : list (list byte)) : result (list (list byte))
  by wf (length hashes) lt :=
  merkle_while hashes with inspect (1 <? Z.of_nat (length hashes)) := {
    | exist _ false _ => Ok hashes
    | exist _ true Hlen with inspect (next_level hashes) := {
        | exist _ (Ok new_hashes) Hnew => merkle_while new_hashes
        | exist _ (Raise e) _ => Raise e } }.
Proof.
  assert (HmapM : forall (A B : Type) (f : A -> result B) l l',
             mapM f l = Ok l' -> length l' = length l).
  { intros A B f l; induction l as [|x l IH]; intros l' H; simpl in H.
    - injection H as <-. reflexivity.
    - destruct (f x); simpl in H; [|discriminate].
      destruct (mapM f l) eqn:E; simpl in H; [|discriminate].
      injection H as <-. simpl. f_equal. apply IH. reflexivity. }
  assert (Hhalf : forall n : Z, 1 < n -> (Z.to_nat ((n + n mod 2 - 0 + 2 - 1) / 2) < Z.to_nat n)%nat).
  { intros n Hn. pose proof (Z.mod_pos_bound n 2 ltac:(lia)) as Hm.
    apply Z2Nat.inj_lt; [apply Z.div_pos; lia | lia |].
    apply Z.div_lt_upper_bound; [lia|].
    destruct (Z.eq_dec (n mod 2) 0) as [E|E]; [lia|].
    assert (n mod 2 = 1) as E1 by lia.
    assert (n <> 2) by (intros ->; discriminate E1). lia. }
  apply Z.ltb_lt in Hlen. specialize (Hhalf _ Hlen). rewrite Nat2Z.id in Hhalf.
  unfold next_level, duplicate_last, pair_up in Hnew.
  destruct (Z.of_nat (length hashes) mod 2 =? 0) eqn:Hodd; simpl in Hnew.
  - apply Z.eqb_eq in Hodd. rewrite Hodd, Z.add_0_r in Hhalf.
    apply HmapM in Hnew. rewrite Hnew. unfold py.range_step.
    rewrite length_map, length_seq. exact Hhalf.
  - apply Z.eqb_neq in Hodd.
    destruct (py.index hashes (-1)) as [last|]; simpl in Hnew; [|discriminate].
    apply HmapM in Hnew. rewrite Hnew. unfold py.range_step.
    rewrite length_map, length_seq, length_app, Nat2Z.inj_add.
    change (Z.of_nat (length [last])) with 1.
    pose proof (Z.mod_pos_bound (Z.of_nat (length hashes)) 2 ltac:(lia)) as Hm.
    replace (Z.of_nat (length hashes) mod 2) with 1 in Hhalf by lia.
    exact Hhalf.
Defined.

Definition merkle_root (tx_hashes : list string) : result string :=
  if (length tx_hashes =? 0)%nat then Ok (py.str_repeat "00" 32)
  else
    let* hashes := mapM py.fromhex tx_hashes in
    let* hashes := merkle_while hashes in
    let* root := py.index hashes 0 in
    let merkle := py.hex (rev root) in
    Ok merkle.

End merkle.

(** ** [src/config/constants.py] *)

Module constants.

Definition VERSION : Z := 0x20000000.
Definition PREVIOUS_BLOCK_HASH : string := py.str_repeat "00" 32.
Definition BITS : Z := 0x1f7fffff.
Definition TRANSACTIONS : list string :=
  [ "27a1ed6ac1abbc3298f5c593c4b236d3360602e3d973f2e2eae78ae8ebb00eef";
    "d10c02cf8eb0e9ea32a037e0bc3a7290958ce00ca39e8162a221a0c59e8592d8";
    "d5323c5921a64e2ef7ee61f09400811b4ce501b37c0e0eb062d391280000749e";
    "9e4ab9d29f3178bc90333944cdfd9bdfc9b1ed36b5519566b64b06b0e5f6c6cd";
    "55adb58a31be1fa5bebad8a23e34035d3da781ea5a3fbcbb610bd629be3eb3d4";
    "c5b3e91ff5a90e35003c35ab34b866e09a05f411b9c16583d61eed57e7b62a30";
    "83e4dde10315507d5387f22f5a7b9d4d41cd57989aa9ecbc7accd1e91bd99128" ]%string.

End constants.

(** ** [src/environments/simple_bitcoin_env.py] *)

Module simple_bitcoin_env.

(** [generate_transactions()]: one hexadecimal text per draw of
    [os.urandom(32)]; [urandom] lists the draws, as many as the default
    [num_txs] fixed when the module is loaded. *)
Definition generate_transactions (urandom : list (list byte)) : list string :=
  map py.hex urandom.

(** The attributes of [SimpleBitcoinEnv] that [step] and [reset] read or
    write. *)
Record SimpleBitcoinEnv : Type := Env {
  version : Z;
  previousblockhash : string;
  bits : Z;
  base_timestamp : Z;
  transactions : list string;
  num_txs : Z;
  target : Z;
  current_nonce : Z;
  current_timestamp : Z;
  current_tx_order : list Z;
  block_height : Z
}.

(** [__init__], with [BASE_TIMESTAMP = int(time.time())] as [now]. *)
Definition init (now : Z) : result SimpleBitcoinEnv :=
  let num := Z.of_nat (length constants.TRANSACTIONS) in
  let* tgt := block.bits_to_target constants.BITS in
  Ok {| version := constants.VERSION;
        previousblockhash := constants.PREVIOUS_BLOCK_HASH;
        bits := constants.BITS;
        base_timestamp := now;
        transactions := constants.TRANSACTIONS;
        num_txs := num;
        target := tgt;
        current_nonce := 0;
        current_timestamp := now;
        current_tx_order := py.range num;
        block_height := 1 |}.

(** The first loop of [fix_permutation]: [seen] and [res] after one entry. *)
Definition keep_entry (n : Z) (st : gset Z * list Z) (x : Z) : gset Z * list Z :=
  let '(seen, res) := st in
  if bool_decide (x ∉ seen) && ((0 <=? x) && (x <? n))
  then (seen ∪ {[x]}, res ++ [x])
  else (seen, res).

(** The second loop: [res] after one index of [range(n)]. *)
Definition add_missing (seen : gset Z) (res : list Z) (x : Z) : list Z :=
  if bool_decide (x ∉ seen) then res ++ [x] else res.

Definition fix_permutation (arr : list Z) (n : Z) : list Z :=
  let '(seen, res) := fold_left (keep_entry n) arr (∅, []) in
  let res := fold_left (add_missing seen) (py.range n) res in
  py.slice_to res n.

(** The dictionary [action]. *)
Record Action : Set := {
  a_nonce : Z;
  a_extra_nonce : Z;
  a_tx_order : list Z
}.

(** The observation built by [_get_obs]. *)
Record Obs : Set := {
  obs_version : Z;
  obs_previousblockhash : list byte;
  obs_bits : Z;
  obs_timestamp : Z;
  obs_nonce : Z;
  obs_tx_order : list Z
}.

Definition _get_obs (self : SimpleBitcoinEnv) : result Obs :=
  let* prev_hash_bytes := py.fromhex (previousblockhash self) in
  Ok {| obs_version := version self;
        obs_previousblockhash := prev_hash_bytes;
        obs_bits := bits self;
        obs_timestamp := current_timestamp self;
        obs_nonce := current_nonce self;
        obs_tx_order := current_tx_order self |}.

(** The dictionary returned as [info]. *)
Record Info : Set := {
  info_block_hash : string;
  info_hash_int : Z;
  info_target : Z;
  info_header_fields : block.header_fields;
  info_coinbase_tx : string;
  info_full_tx_list : list string
}.

(** The tuple returned by [step]. *)
Record StepResult : Set := {
  observation : Obs;
  reward : py.number;
  done : bool;
  info : Info
}.

(** [min(max(0, i), self.num_txs - 1)]. *)
Definition clamp (num_txs i : Z) : Z := Z.min (Z.max 0 i) (num_txs - 1).

(** The ordering [step] uses: each entry clamped to [0, num_txs - 1], then
    [fix_permutation]. *)
Definition step_tx_order (num_txs : Z) (tx_order : list Z) : list Z :=
  let tx_order := map (clamp num_txs) tx_order in
  fix_permutation tx_order num_txs.

(** The header [step] assembles from the state and the action, with the
    lists it is built from: [(tx_order, coinbase_tx, full_tx_list,
    header_fields)]. *)
Definition assemble (self : SimpleBitcoinEnv) (action : Action)
  : result (list Z * string * list string * block.header_fields) :=
  let nonce := a_nonce action in
  let extra_nonce := a_extra_nonce action in
  let tx_order := step_tx_order (num_txs self) (a_tx_order action) in
  let new_timestamp := base_timestamp self in
  let new_timestamp :=
    if new_timestamp <? base_timestamp self then base_timestamp self else new_timestamp in
  let* raw_coinbase_tx :=
    block.create_coinbase_tx (block_height self) extra_nonce "Mining with RL"
      block.default_address in
  let coinbase_tx := block.txid raw_coinbase_tx in
  let* reordered_txs := mapM (py.index (transactions self)) tx_order in
  let full_tx_list := coinbase_tx :: reordered_txs in
  let* new_merkle_root := merkle.merkle_root full_tx_list in
  let header_fields :=
    {| block.hf_version := version self;
       block.hf_previousblockhash := previousblockhash self;
       block.hf_merkleroot := new_merkle_root;
       block.hf_timestamp := new_timestamp;
       block.hf_bits := bits self;
       block.hf_nonce := nonce |} in
  Ok (tx_order, coinbase_tx, full_tx_list, header_fields).

(** [step]: [urandom] lists the draws of [os.urandom(32)] that
    [generate_transactions()] makes when a block is found. *)
Definition step (self : SimpleBitcoinEnv) (action : Action) (urandom : list (list byte))
  : result (SimpleBitcoinEnv * StepResult) :=
  let* (tx_order, coinbase_tx, full_tx_list, header_fields) := assemble self action in
  let nonce := block.hf_nonce header_fields in
  let new_timestamp := block.hf_timestamp header_fields in
  let* block_hash := block.compute_hash header_fields in
  let* hash_int := py.int16 block_hash in
  let reward := py.Int 0 in
  let done := false in
  let '(reward, self) :=
    if hash_int <? target self then
      let reward := py.Int 100 in
      let txs := generate_transactions urandom in
      (reward,
       {| version := version self;
          previousblockhash := block_hash;
          bits := bits self;
          base_timestamp := base_timestamp self;
          transactions := txs;
          num_txs := Z.of_nat (length txs);
          target := target self;
          current_nonce := current_nonce self;
          current_timestamp := current_timestamp self;
          current_tx_order := current_tx_order self;
          block_height := block_height self + 1 |})
    else
      let reward := py.Float (py.float_neg (py.truediv_pow2 hash_int 256)) in
      (reward, self) in
  let self :=
    {| version := version self;
       previousblockhash := previousblockhash self;
       bits := bits self;
       base_timestamp := base_timestamp self;
       transactions := transactions self;
       num_txs := num_txs self;
       target := target self;
       current_nonce := nonce;
       current_timestamp := new_timestamp;
       current_tx_order := tx_order;
       block_height := block_height self |} in
  let* obs := _get_obs self in
  Ok (self,
      {| observation := obs;
         reward := reward;
         done := done;
         info := {| info_block_hash := block_hash;
                    info_hash_int := hash_int;
                    info_target := target self;
                    info_header_fields := header_fields;
                    info_coinbase_tx := coinbase_tx;
                    info_full_tx_list := full_tx_list |} |}).

Definition reset (self : SimpleBitcoinEnv) : result (SimpleBitcoinEnv * Obs) :=
  let self :=
    {| version := version self;
       previousblockhash := py.str_repeat "00" 32;
       bits := bits self;
       base_timestamp := base_timestamp self;
       transactions := transactions self;
       num_txs := num_txs self;
       target := target self;
       current_nonce := 0;
       current_timestamp := base_timestamp self;
       current_tx_order := py.range (num_txs self);
       block_height := 1 |} in
  let* obs := _get_obs self in
  Ok (self, obs).

(** The states an episode can be in: built by [__init__], then changed by
    [step] and [reset] calls that return. *)
Inductive reachable : SimpleBitcoinEnv -> Prop :=
| reachable_init now self :
    init now = Ok self -> reachable self
| reachable_step self action urandom self' r :
    reachable self -> step self action urandom = Ok (self', r) -> reachable self'
| reachable_reset self self' obs :
    reachable self -> reset self = Ok (self', obs) -> reachable self'.

End simple_bitcoin_env.

(** ** The specification's wording of the algorithms *)

Module spec.

(** The value of a byte string read as a big-endian integer. *)
Fixpoint be_int (bs : list byte) : Z :=
  match bs with
  | [] => 0
  | b :: bs' => py.Z_of_byte b * 256 ^ Z.of_nat (length bs') + be_int bs'
  end.

Definition in_range (n x : Z) : Prop := 0 <= x < n.

(** The value of a byte string read as a little-endian integer. *)
Fixpoint le_int (bs : list byte) : Z :=
  match bs with
  | [] => 0
  | b :: bs' => py.Z_of_byte b + 256 * le_int bs'
  end.

(** The number a script-number encoding stands for: the little-endian
    magnitude, with the top bit of the last byte as the sign. *)
Definition script_num_value (bs : list byte) : Z :=
  match bs with
  | [] => 0
  | _ =>
      let top := 128 * 256 ^ (Z.of_nat (length bs) - 1) in
      if le_int bs <? top then le_int bs else top - le_int bs
  end.

(** The scriptSig of the coinbase input: the push of the height, the extra
    nonce and the message. *)
Definition coinbase_script_sig (block_height extra_nonce : Z) (miner_msg : string)
  : list byte :=
  (py.byte_of_Z (Z.of_nat (length (block.encode_script_num block_height)))
     :: block.encode_script_num block_height)
    ++ py.le_bytes 4 extra_nonce ++ py.encode miner_msg.

(** One level of the Merkle tree over an even number of hashes. *)
Fixpoint pairs (l : list (list byte)) : list (list byte) :=
  match l with
  | a :: b :: rest => merkle.double_sha256 (a ++ b) :: pairs rest
  | _ => []
  end.

(** The level [next_level] builds: the hashes, with the last one twice when
    their count is odd, paired in order. *)
Definition padded (hashes : list (list byte)) : list (list byte) :=
  if Nat.even (length hashes) then hashes else hashes ++ [List.last hashes []].

(** Permutation repair as the specification words it: the entries that are
    out of range or already met are dropped, each value kept at its first
    occurrence; [earlier] lists the entries already passed. *)
Fixpoint drop_invalid (n : Z) (earlier arr : list Z) : list Z :=
  match arr with
  | [] => []
  | x :: arr' =>
      if (0 <=? x) && (x <? n) && negb (existsb (Z.eqb x) earlier)
      then x :: drop_invalid n (x :: earlier) arr'
      else drop_invalid n (x :: earlier) arr'
  end.

(** The indices of [0, n) absent from [kept], in ascending order. *)
Definition missing (n : Z) (kept : list Z) : list Z :=
  List.filter (fun i => negb (existsb (Z.eqb i) kept)) (py.range n).

Definition repair (n : Z) (arr : list Z) : list Z :=
  let kept := drop_invalid n [] arr in
  kept ++ missing n kept.

(** What holds of the environment between two calls. *)
Record well_formed (self : simple_bitcoin_env.SimpleBitcoinEnv) : Prop := {
  wf_num_txs :
    simple_bitcoin_env.num_txs self
    = Z.of_nat (length (simple_bitcoin_env.transactions self));
  wf_transactions :
    Forall (fun t => returns (py.fromhex t)) (simple_bitcoin_env.transactions self);
  wf_previousblockhash :
    exists bs, py.fromhex (simple_bitcoin_env.previousblockhash self) = Ok bs /\
               length bs = 32%nat;
  wf_block_height : 1 <= simple_bitcoin_env.block_height self;
  wf_version : simple_bitcoin_env.version self = constants.VERSION;
  wf_bits : simple_bitcoin_env.bits self = constants.BITS;
  wf_target :
    block.bits_to_target (simple_bitcoin_env.bits self)
    = Ok (simple_bitcoin_env.target self);
  wf_timestamp :
    simple_bitcoin_env.current_timestamp self = simple_bitcoin_env.base_timestamp self
}.

End spec.

(** ** Inputs the properties are evaluated on *)

Module examples.

Import simple_bitcoin_env.

Definition now : Z := 1700000000.

(** The environment after [__init__] at time [now]. *)
Definition env0 : SimpleBitcoinEnv :=
  {| version := constants.VERSION;
     previousblockhash := constants.PREVIOUS_BLOCK_HASH;
     bits := constants.BITS;
     base_timestamp := now;
     transactions := constants.TRANSACTIONS;
     num_txs := 7;
     target := 0x7fffff * 2 ^ 224;
     current_nonce := 0;
     current_timestamp := now;
     current_tx_order := [0; 1; 2; 3; 4; 5; 6];
     block_height := 1 |}.

(** An attempt that misses the target, and one that meets it. *)
Definition miss : Action :=
  {| a_nonce := 0; a_extra_nonce := 0; a_tx_order := [6; 6; 9; -3; 1] |}.

Definition hit : Action :=
  {| a_nonce := 494; a_extra_nonce := 0; a_tx_order := [0; 1; 2; 3; 4; 5; 6] |}.

(** Two draws of [os.urandom(32)]. *)
Definition draws : list (list byte) :=
  [repeat Byte.x11 32; repeat Byte.xee 32].

(** What [step] returns on the two attempts. *)
Definition missed : result (SimpleBitcoinEnv * StepResult) :=
  Eval vm_compute in step env0 miss [].

Definition found : result (SimpleBitcoinEnv * StepResult) :=
  Eval vm_compute in step env0 hit draws.

End examples.

(** * Properties *)

(** The published test vectors of SHA-256. *)
Example sha256_empty :
  py.hex (hashlib.sha256 []) =
  "e3b0c44298fc1c149afbf4c8996fb92427ae41e4649b934ca495991b7852b855"%string.
Proof. vm_compute. reflexivity. Qed.

Example sha256_abc :
  py.hex (hashlib.sha256 (py.encode "abc")) =
  "ba7816bf8f01cfea414140de5dae2223b00361a396177a9cb410ff61f20015ad"%string.
Proof. vm_compute. reflexivity. Qed.

Example sha256_two_blocks :
  py.hex (hashlib.sha256
            (py.encode "abcdbcdecdefdefgefghfghighijhijkijkljklmklmnlmnomnopnopq")) =
  "248d6a61d20638b8e5c026930c3e6039a33ce45964ff2167f6ecedd419db06c1"%string.
Proof. vm_compute. reflexivity. Qed.

Example genesis_address_script :
  block.address_to_script_pubkey block.default_address =
  py.fromhex "76a91462e907b15cbf27d5425399ebf6f0fb50ebb88f1888ac".
Proof. vm_compute. reflexivity. Qed.


(** ** The error monad *)

Lemma bind_Ok {A B : Type} (m : result A) (k : A -> result B) (b : B) :
  bind m k = Ok b -> exists a, m = Ok a /\ k a = Ok b.
Proof. destruct m as [a|e]; simpl; [eauto | discriminate]. Qed.

Lemma bind_of_Ok {A B : Type} (m : result A) (k : A -> result B) (a : A) :
  m = Ok a -> bind m k = k a.
Proof. intros ->. reflexivity. Qed.

Lemma Ok_inj {A : Type} (a b : A) : Ok a = Ok b -> a = b.
Proof. intros H. injection H as H. exact H. Qed.

(** Splits a hypothesis [let* x := m in k = Ok b] in its two steps. *)
Ltac bind_inv H :=
  let a := fresh "v" in
  let E := fresh "E" in
  apply bind_Ok in H; destruct H as (a & E & H).

Lemma mapM_length {A B : Type} (f : A -> result B) (l : list A) (l' : list B) :
  mapM f l = Ok l' -> length l' = length l.
Proof.
  revert l'; induction l as [|x l IH]; intros l' H; simpl in H.
  - injection H as <-. reflexivity.
  - bind_inv H. bind_inv H. injection H as <-. simpl. f_equal. auto.
Qed.

Lemma mapM_returns {A B : Type} (f : A -> result B) (l : list A) :
  Forall (fun x => returns (f x)) l -> returns (mapM f l).
Proof.
  induction 1 as [|x l [y Hy] _ [ys Hys]]; simpl.
  - eexists; reflexivity.
  - rewrite Hy, Hys. simpl. eexists; reflexivity.
Qed.

(** ** Bytes *)

Lemma Z_of_byte_range (b : byte) : 0 <= py.Z_of_byte b < 256.
Proof.
  unfold py.Z_of_byte. pose proof (Byte.to_N_bounded b). lia.
Qed.

Lemma Z_of_byte_of_Z (z : Z) : py.Z_of_byte (py.byte_of_Z z) = z mod 256.
Proof.
  unfold py.Z_of_byte, py.byte_of_Z.
  pose proof (Z.mod_pos_bound z 256 ltac:(lia)) as Hz.
  destruct (Byte.of_N (Z.to_N (z mod 256))) as [b|] eqn:E.
  - apply Byte.to_of_N in E. rewrite E. lia.
  - apply Byte.of_N_None_iff in E. lia.
Qed.

Lemma byte_of_Z_of_byte (b : byte) : py.byte_of_Z (py.Z_of_byte b) = b.
Proof. destruct b; reflexivity. Qed.

(** ** [bits_to_target] *)

Lemma lshift_one (n : Z) : 0 <= n -> block.lshift 1 n = Ok (2 ^ n).
Proof.
  intros Hn. unfold block.lshift.
  destruct (n <? 0) eqn:E; [apply Z.ltb_lt in E; lia|].
  rewrite Z.shiftl_1_l. reflexivity.
Qed.

Lemma bits_to_target_Ok (bits : Z) :
  3 <= Z.shiftr bits 24 ->
  block.bits_to_target bits =
  Ok (Z.land bits 0xffffff * 2 ^ (8 * (Z.shiftr bits 24 - 3))).
Proof.
  intros H. unfold block.bits_to_target.
  rewrite lshift_one by lia. reflexivity.
Qed.

Lemma bits_to_target_Raise (bits : Z) :
  Z.shiftr bits 24 < 3 -> block.bits_to_target bits = Raise ValueError.
Proof.
  intros H. unfold block.bits_to_target, block.lshift.
  destruct (8 * (Z.shiftr bits 24 - 3) <? 0) eqn:E; [reflexivity|].
  apply Z.ltb_ge in E. lia.
Qed.

(** C6, as the code has it: on a 32-bit [bits] whose top byte is at least 3,
    [bits_to_target] returns the exact integer mantissa * 2^(8 * (exponent - 3)),
    with the exponent the top byte and the mantissa the low 24 bits; the
    result is not truncated: for [bits = 0xff7fffff] it is above 2^256. *)
Theorem bits_to_target_exact :
  (forall bits : Z,
      0 <= bits < 2 ^ 32 ->
      3 <= bits / 2 ^ 24 ->
      block.bits_to_target bits =
      Ok ((bits mod 2 ^ 24) * 2 ^ (8 * (bits / 2 ^ 24 - 3)))) /\
  (exists t, block.bits_to_target 0xff7fffff = Ok t /\ 2 ^ 256 <= t).
Proof.
  split.
  - intros bits Hb He.
    rewrite <- Z.shiftr_div_pow2 in * by lia.
    rewrite bits_to_target_Ok by exact He.
    change 0xffffff with (Z.ones 24). rewrite Z.land_ones by lia. reflexivity.
  - eexists. split; [vm_compute; reflexivity|]. vm_compute. discriminate.
Qed.

Lemma bits_to_target_exact_witness :
  block.bits_to_target 0x1f7fffff = Ok (0x7fffff * 2 ^ 224).
Proof.
  rewrite (proj1 bits_to_target_exact 0x1f7fffff); [reflexivity | lia |].
  vm_compute. discriminate.
Defined.

(** C6 as stated fails: for [bits = 0x02000001], a 32-bit value whose top
    byte is 2, [bits_to_target] raises ValueError and returns no integer. *)
Lemma bits_to_target_every_bits_counterexample :
  0 <= 0x02000001 < 2 ^ 32 /\
  block.bits_to_target 0x02000001 = Raise ValueError /\
  ~ (exists t, block.bits_to_target 0x02000001 = Ok t).
Proof.
  split; [lia|]. split; [reflexivity|]. intros [t H]. discriminate H.
Qed.

(** C10: [bits_to_target] returns an integer exactly when the exponent, the
    top byte of [bits], is at least 3; then the shift amount
    8 * (exponent - 3) is not negative; when the top byte is 0, 1 or 2 the
    shift is negative and the call raises ValueError. *)
Theorem bits_to_target_defined (bits : Z) :
  (returns (block.bits_to_target bits) <-> 3 <= Z.shiftr bits 24) /\
  (3 <= Z.shiftr bits 24 -> 0 <= 8 * (Z.shiftr bits 24 - 3)) /\
  (0 <= bits < 2 ^ 32 ->
   bits / 2 ^ 24 = 0 \/ bits / 2 ^ 24 = 1 \/ bits / 2 ^ 24 = 2 ->
   8 * (bits / 2 ^ 24 - 3) < 0 /\ block.bits_to_target bits = Raise ValueError).
Proof.
  split; [|split].
  - split.
    + intros [t Ht]. destruct (Z_lt_le_dec (Z.shiftr bits 24) 3) as [Hlt|Hle]; [|exact Hle].
      rewrite bits_to_target_Raise in Ht by exact Hlt. discriminate.
    + intros H. rewrite bits_to_target_Ok by exact H. eexists; reflexivity.
  - lia.
  - intros Hb He. split; [lia|].
    apply bits_to_target_Raise. rewrite Z.shiftr_div_pow2 by lia. lia.
Qed.

Lemma bits_to_target_defined_witness :
  returns (block.bits_to_target 0x1f7fffff) /\
  block.bits_to_target 0x01000001 = Raise ValueError.
Proof.
  split.
  - apply (proj1 (bits_to_target_defined 0x1f7fffff)). vm_compute. discriminate.
  - apply (proj2 (proj2 (bits_to_target_defined 0x01000001))); [lia|].
    right; left. reflexivity.
Defined.

(** ** Permutation repair *)

Section Repair.

Import simple_bitcoin_env.

Variable n : Z.

Local Abbreviation in_range := (spec.in_range n).

Lemma existsb_eqb_elem (x : Z) (l : list Z) :
  existsb (Z.eqb x) l = true <-> x ∈ l.
Proof.
  rewrite existsb_exists, list_elem_of_In. split.
  - intros (y & Hy & E). apply Z.eqb_eq in E. subst. exact Hy.
  - intros H. exists x. split; [exact H | apply Z.eqb_refl].
Qed.

Lemma in_range_test (x : Z) : (0 <=? x) && (x <? n) = true <-> in_range x.
Proof. unfold spec.in_range. rewrite andb_true_iff, Z.leb_le, Z.ltb_lt. reflexivity. Qed.

(** What the kept entries are. *)
Lemma elem_of_drop_invalid (x : Z) (earlier arr : list Z) :
  x ∈ spec.drop_invalid n earlier arr <-> in_range x /\ x ∈ arr /\ x ∉ earlier.
Proof.
  revert earlier; induction arr as [|y arr IH]; intros earlier; simpl.
  - rewrite elem_of_nil. split; [tauto|]. intros (_ & H & _). inversion H.
  - destruct ((0 <=? y) && (y <? n)) eqn:Er; simpl.
    + apply in_range_test in Er.
      destruct (existsb (Z.eqb y) earlier) eqn:Ee; simpl.
      * apply existsb_eqb_elem in Ee. rewrite IH, !elem_of_cons. intuition (subst; tauto || congruence).
      * assert (y ∉ earlier) as Hy.
        { intros H. apply existsb_eqb_elem in H. congruence. }
        rewrite !elem_of_cons, IH, !elem_of_cons.
        destruct (decide (x = y)) as [->|Hne]; intuition (subst; tauto || congruence).
    + assert (~ in_range y) as Hy.
      { intros H. apply in_range_test in H. congruence. }
      rewrite IH, !elem_of_cons. intuition (subst; tauto || congruence).
Qed.

Lemma NoDup_drop_invalid (earlier arr : list Z) :
  NoDup (spec.drop_invalid n earlier arr).
Proof.
  revert earlier; induction arr as [|y arr IH]; intros earlier; simpl.
  - constructor.
  - destruct ((0 <=? y) && (y <? n) && negb (existsb (Z.eqb y) earlier)); [|apply IH].
    constructor; [|apply IH].
    rewrite elem_of_drop_invalid, !elem_of_cons. intuition (subst; tauto || congruence).
Qed.

(** The first loop of [fix_permutation] against [spec.drop_invalid]: [seen]
    holds the valid entries among those already passed. *)
Lemma keep_entry_loop (arr earlier : list Z) (seen : gset Z) (res : list Z) :
  (forall x, x ∈ seen <-> in_range x /\ x ∈ earlier) ->
  exists seen',
    fold_left (keep_entry n) arr (seen, res) =
      (seen', res ++ spec.drop_invalid n earlier arr) /\
    (forall x, x ∈ seen' <-> in_range x /\ x ∈ earlier ++ arr).
Proof.
  revert earlier seen res; induction arr as [|y arr IH]; intros earlier seen res Hseen.
  - exists seen. simpl. rewrite !app_nil_r. auto.
  - cbn [fold_left spec.drop_invalid]. unfold keep_entry at 2.
    assert (Hcond : bool_decide (y ∉ seen) && ((0 <=? y) && (y <? n)) =
                    (0 <=? y) && (y <? n) && negb (existsb (Z.eqb y) earlier)).
    { destruct ((0 <=? y) && (y <? n)) eqn:Er; [|apply andb_false_r].
      rewrite andb_true_r. simpl. apply in_range_test in Er.
      destruct (existsb (Z.eqb y) earlier) eqn:Ee; simpl.
      - apply existsb_eqb_elem in Ee. apply bool_decide_eq_false.
        intros H. apply H, Hseen. tauto.
      - apply bool_decide_eq_true. intros H. apply Hseen in H as [_ H].
        apply existsb_eqb_elem in H. congruence. }
    rewrite Hcond.
    destruct ((0 <=? y) && (y <? n) && negb (existsb (Z.eqb y) earlier)) eqn:Ec.
    + apply andb_true_iff in Ec as [Er _]. apply in_range_test in Er.
      destruct (IH (y :: earlier) (seen ∪ {[y]}) (res ++ [y])) as (seen' & Hf & Hs).
      { intros x. rewrite elem_of_union, elem_of_singleton, elem_of_cons, Hseen.
        split; [intros [?| ->]; tauto | tauto]. }
      exists seen'. rewrite Hf, <- app_assoc. split; [reflexivity|].
      intros x. rewrite Hs, !elem_of_app, !elem_of_cons. tauto.
    + destruct (IH (y :: earlier) seen res) as (seen' & Hf & Hs).
      { intros x. rewrite Hseen, elem_of_cons. split; [tauto|].
        intros (Hr & [->|Hx]); [|tauto].
        apply andb_false_iff in Ec as [Ec|Ec].
        - apply in_range_test in Hr. congruence.
        - apply negb_false_iff, existsb_eqb_elem in Ec. tauto. }
      exists seen'. rewrite Hf. split; [reflexivity|].
      intros x. rewrite Hs, !elem_of_app, !elem_of_cons. tauto.
Qed.

(** The second loop appends the indices not seen. *)
Lemma add_missing_loop (seen : gset Z) (l res : list Z) :
  fold_left (add_missing seen) l res =
  res ++ List.filter (fun i => bool_decide (i ∉ seen)) l.
Proof.
  revert res; induction l as [|x l IH]; intros res; simpl.
  - rewrite app_nil_r. reflexivity.
  - rewrite IH. unfold add_missing.
    destruct (bool_decide (x ∉ seen)); [rewrite <- app_assoc|]; reflexivity.
Qed.

Lemma elem_of_range (x : Z) : x ∈ py.range n <-> in_range x.
Proof.
  unfold py.range, spec.in_range. rewrite list_elem_of_In, in_map_iff. split.
  - intros (k & <- & Hk). apply in_seq in Hk. lia.
  - intros H. exists (Z.to_nat x). split; [lia|]. apply in_seq. lia.
Qed.

Lemma NoDup_range : NoDup (py.range n).
Proof.
  unfold py.range. apply NoDup_ListNoDup, Stdlib.Lists.Finite.Injective_map_NoDup.
  - intros a b. apply Nat2Z.inj.
  - apply seq_NoDup.
Qed.

Lemma length_range : 0 <= n -> Z.of_nat (length (py.range n)) = n.
Proof. intros H. unfold py.range. rewrite length_map, length_seq. lia. Qed.

(** The repaired ordering is a permutation of [range(n)]. *)
Lemma repair_Permutation (arr : list Z) : spec.repair n arr ≡ₚ py.range n.
Proof.
  unfold spec.repair, spec.missing.
  set (kept := spec.drop_invalid n [] arr).
  apply NoDup_Permutation.
  - apply NoDup_app. split; [apply NoDup_drop_invalid|]. split.
    + intros x Hx Hm. apply list_elem_of_In, filter_In in Hm as [_ Hm].
      apply negb_true_iff in Hm. apply existsb_eqb_elem in Hx. congruence.
    + apply NoDup_ListNoDup, List.NoDup_filter, NoDup_ListNoDup, NoDup_range.
  - apply NoDup_range.
  - intros x. rewrite elem_of_app, elem_of_range.
    rewrite (list_elem_of_In (List.filter _ _) x), filter_In, <- list_elem_of_In, elem_of_range.
    rewrite negb_true_iff. unfold kept at 1. rewrite elem_of_drop_invalid.
    split; [tauto|]. intros Hr.
    destruct (existsb (Z.eqb x) kept) eqn:E; [|tauto].
    apply existsb_eqb_elem in E. unfold kept in E.
    apply elem_of_drop_invalid in E. tauto.
Qed.

Lemma slice_to_all {A : Type} (l : list A) :
  Z.of_nat (length l) = Z.max 0 n -> py.slice_to l n = l.
Proof.
  intros H. unfold py.slice_to. destruct (n <? 0) eqn:E.
  - apply Z.ltb_lt in E. destruct l; [reflexivity|simpl in H; lia].
  - apply Z.ltb_ge in E. apply firstn_all2. lia.
Qed.

Lemma fix_permutation_repair (arr : list Z) :
  fix_permutation arr n = spec.repair n arr.
Proof.
  unfold fix_permutation.
  destruct (keep_entry_loop arr [] ∅ []) as (seen & Hf & Hs).
  { intros x. rewrite elem_of_empty, elem_of_nil. tauto. }
  rewrite Hf, add_missing_loop. simpl.
  assert (Hm : List.filter (fun i => bool_decide (i ∉ seen)) (py.range n) =
               spec.missing n (spec.drop_invalid n [] arr)).
  { unfold spec.missing. apply filter_ext_in. intros x Hx.
    apply list_elem_of_In, elem_of_range in Hx.
    destruct (existsb (Z.eqb x) (spec.drop_invalid n [] arr)) eqn:E; simpl.
    - apply bool_decide_eq_false. intros H. apply H, Hs.
      apply existsb_eqb_elem, elem_of_drop_invalid in E. simpl. tauto.
    - apply bool_decide_eq_true. intros H. apply Hs in H. simpl in H.
      assert (x ∈ spec.drop_invalid n [] arr) as Hk.
      { apply elem_of_drop_invalid. rewrite elem_of_nil. tauto. }
      apply existsb_eqb_elem in Hk. congruence. }
  rewrite Hm. apply slice_to_all.
  change (Z.of_nat (length (spec.repair n arr)) = Z.max 0 n).
  rewrite (Permutation_length (repair_Permutation arr)).
  unfold py.range. rewrite length_map, length_seq. lia.
Qed.

End Repair.

(** C4, as the code has it: [fix_permutation] is the drop-and-append
    normalisation for every list of integers and every [n] (it drops the
    entries out of [0, n) and the duplicates, keeping first occurrences, and
    appends the missing indices in ascending order), and it has no failure
    path; the ordering [step] uses is this normalisation of the entries
    clamped to [0, n - 1] first, so an entry out of range is moved to the
    nearest bound instead of being dropped. Both are permutations of
    [range(n)]. *)
Theorem step_ordering_repair (n : Z) (arr : list Z) :
  simple_bitcoin_env.fix_permutation arr n = spec.repair n arr /\
  simple_bitcoin_env.step_tx_order n arr =
    spec.repair n (map (fun i => Z.min (Z.max 0 i) (n - 1)) arr) /\
  simple_bitcoin_env.fix_permutation arr n ≡ₚ py.range n /\
  simple_bitcoin_env.step_tx_order n arr ≡ₚ py.range n.
Proof.
  unfold simple_bitcoin_env.step_tx_order.
  rewrite !fix_permutation_repair.
  split; [reflexivity|]. split; [reflexivity|].
  split; apply repair_Permutation.
Qed.

(** C4 as stated fails on [step]: over 3 transactions the ordering
    [5, 0, 1] becomes [2, 0, 1], the entry 5 clamped to 2, where dropping
    it and appending the missing index gives [0, 1, 2]. *)
Lemma step_ordering_drops_out_of_range_counterexample :
  simple_bitcoin_env.step_tx_order 3 [5; 0; 1] = [2; 0; 1] /\
  spec.repair 3 [5; 0; 1] = [0; 1; 2] /\
  simple_bitcoin_env.step_tx_order 3 [5; 0; 1] <> spec.repair 3 [5; 0; 1].
Proof.
  split; [vm_compute; reflexivity|]. split; [vm_compute; reflexivity|].
  vm_compute. discriminate.
Qed.

(** C5: repairing [5, 5, -1, 2] over 3 transactions gives [2, 0, 1], by
    [fix_permutation] alone and by the clamped repair of [step]. *)
Theorem repair_example :
  simple_bitcoin_env.fix_permutation [5; 5; -1; 2] 3 = [2; 0; 1] /\
  simple_bitcoin_env.step_tx_order 3 [5; 5; -1; 2] = [2; 0; 1] /\
  spec.repair 3 [5; 5; -1; 2] = [2; 0; 1].
Proof. repeat split; vm_compute; reflexivity. Qed.

(** ** The mining step *)

Section Step.

Import simple_bitcoin_env.

Lemma assemble_inv self action tx_order coinbase_tx full_tx_list hf :
  assemble self action = Ok (tx_order, coinbase_tx, full_tx_list, hf) ->
  tx_order = step_tx_order (num_txs self) (a_tx_order action) /\
  block.hf_version hf = version self /\
  block.hf_previousblockhash hf = previousblockhash self /\
  merkle.merkle_root full_tx_list = Ok (block.hf_merkleroot hf) /\
  block.hf_timestamp hf = base_timestamp self /\
  block.hf_bits hf = bits self /\
  block.hf_nonce hf = a_nonce action.
Proof.
  unfold assemble. intros H.
  rewrite Z.ltb_irrefl in H.
  bind_inv H. bind_inv H. bind_inv H.
  injection H as <- <- <- <-. simpl. tauto.
Qed.

(** The state and the tuple a returning [step] leaves, by the branch taken. *)
Lemma step_inv self action urandom self' r :
  step self action urandom = Ok (self', r) ->
  exists tx_order coinbase_tx full_tx_list hf block_hash hash_int,
    assemble self action = Ok (tx_order, coinbase_tx, full_tx_list, hf) /\
    block.compute_hash hf = Ok block_hash /\
    py.int16 block_hash = Ok hash_int /\
    done r = false /\
    info r = {| info_block_hash := block_hash;
                info_hash_int := hash_int;
                info_target := target self;
                info_header_fields := hf;
                info_coinbase_tx := coinbase_tx;
                info_full_tx_list := full_tx_list |} /\
    _get_obs self' = Ok (observation r) /\
    version self' = version self /\
    bits self' = bits self /\
    base_timestamp self' = base_timestamp self /\
    target self' = target self /\
    current_nonce self' = a_nonce action /\
    current_timestamp self' = base_timestamp self /\
    current_tx_order self' = tx_order /\
    (hash_int < target self ->
       reward r = py.Int 100 /\
       previousblockhash self' = block_hash /\
       block_height self' = block_height self + 1 /\
       transactions self' = generate_transactions urandom /\
       num_txs self' = Z.of_nat (length (generate_transactions urandom))) /\
    (target self <= hash_int ->
       reward r = py.Float (py.float_neg (py.truediv_pow2 hash_int 256)) /\
       previousblockhash self' = previousblockhash self /\
       block_height self' = block_height self /\
       transactions self' = transactions self /\
       num_txs self' = num_txs self).
Proof.
  unfold step. intros H. bind_inv H.
  destruct v as [[[tx_order coinbase_tx] full_tx_list] hf].
  pose proof (assemble_inv _ _ _ _ _ _ E) as (_ & _ & _ & _ & Ht & _ & Hn).
  bind_inv H. rename v into block_hash. bind_inv H. rename v into hash_int.
  exists tx_order, coinbase_tx, full_tx_list, hf, block_hash, hash_int.
  destruct (hash_int <? target self) eqn:Hlt;
    bind_inv H; injection H as <- <-; cbn;
    [apply Z.ltb_lt in Hlt | apply Z.ltb_ge in Hlt];
    repeat (split; [first [assumption | reflexivity | lia] |]);
    split; intros; first [lia | repeat split].
Qed.

End Step.

(** ** Hexadecimal text *)

Lemma hex_digits_value (b : byte) :
  py.hex_value (py.hex_digit (Z.shiftr (py.Z_of_byte b) 4)) = Some (py.Z_of_byte b / 16) /\
  py.hex_value (py.hex_digit (Z.land (py.Z_of_byte b) 15)) = Some (py.Z_of_byte b mod 16).
Proof. destruct b; split; reflexivity. Qed.

Lemma hex_digit_not_space (c : ascii) (d : Z) :
  py.hex_value c = Some d -> py.is_space c = false /\ 0 <= d < 16.
Proof.
  unfold py.hex_value, py.is_space.
  set (n := Z.of_N (N_of_ascii c)).
  destruct ((48 <=? n) && (n <=? 57)) eqn:E1;
    [|destruct ((97 <=? n) && (n <=? 102)) eqn:E2;
      [|destruct ((65 <=? n) && (n <=? 70)) eqn:E3; [|discriminate]]];
    intros [= <-]; split; lia.
Qed.

Lemma fromhex_hex (bs : list byte) : py.fromhex (py.hex bs) = Ok bs.
Proof.
  induction bs as [|b bs IH]; [reflexivity|].
  cbn [py.hex py.fromhex].
  destruct (hex_digits_value b) as [Hhi Hlo].
  destruct (hex_digit_not_space _ _ Hhi) as [Hs _].
  rewrite Hs, Hhi, Hlo, IH. simpl. do 2 f_equal.
  rewrite <- (byte_of_Z_of_byte b) at 3. f_equal.
  pose proof (Z.div_mod (py.Z_of_byte b) 16 ltac:(lia)). lia.
Qed.

Lemma int16_digits_hex (acc : Z) (bs : list byte) :
  py.int16_digits acc (py.hex bs) =
  Ok (acc * 256 ^ Z.of_nat (length bs) + spec.be_int bs).
Proof.
  revert acc; induction bs as [|b bs IH]; intros acc.
  - simpl. f_equal. lia.
  - cbn [py.hex py.int16_digits spec.be_int length].
    destruct (hex_digits_value b) as [-> ->]. rewrite IH. f_equal.
    rewrite Nat2Z.inj_succ, Z.pow_succ_r by lia.
    pose proof (Z.div_mod (py.Z_of_byte b) 16 ltac:(lia)). nia.
Qed.

Lemma int16_hex (bs : list byte) :
  bs <> [] -> py.int16 (py.hex bs) = Ok (spec.be_int bs).
Proof.
  intros Hne. destruct bs as [|b bs]; [contradiction|].
  unfold py.int16. cbn [py.hex].
  change (String ?c (String ?d (py.hex bs))) with (py.hex (b :: bs)).
  rewrite int16_digits_hex. f_equal.
Qed.

Lemma be_int_range (bs : list byte) :
  0 <= spec.be_int bs < 256 ^ Z.of_nat (length bs).
Proof.
  induction bs as [|b bs IH]; cbn [spec.be_int length]; [simpl; lia|].
  rewrite Nat2Z.inj_succ, Z.pow_succ_r by lia.
  pose proof (Z_of_byte_range b). nia.
Qed.

(** ** The digest *)

Lemma length_be_bytes (n : nat) (x : Z) : length (hashlib.be_bytes n x) = n.
Proof. induction n as [|n IH]; simpl; [reflexivity | f_equal; exact IH]. Qed.

Lemma length_sha256 (msg : list byte) : length (hashlib.sha256 msg) = 32%nat.
Proof.
  unfold hashlib.sha256, hashlib.digest_of. cbn [flat_map].
  rewrite !length_app, !length_be_bytes. reflexivity.
Qed.

Lemma compute_hash_inv (hf : block.header_fields) (block_hash : string) :
  block.compute_hash hf = Ok block_hash ->
  exists digest,
    length digest = 32%nat /\ block_hash = py.hex digest /\
    py.int16 block_hash = Ok (spec.be_int digest) /\
    0 <= spec.be_int digest < 2 ^ 256.
Proof.
  unfold block.compute_hash. intros H. bind_inv H. apply Ok_inj in H.
  set (digest := rev (block.double_sha256 v)) in *. subst block_hash.
  assert (Hlen : length digest = 32%nat).
  { unfold digest, block.double_sha256. rewrite length_rev. apply length_sha256. }
  exists digest. split; [exact Hlen|]. split; [reflexivity|]. split.
  - apply int16_hex. intros Hnil. rewrite Hnil in Hlen. discriminate.
  - pose proof (be_int_range digest) as Hr. rewrite Hlen in Hr.
    change (256 ^ Z.of_nat 32) with (2 ^ 256) in Hr. exact Hr.
Qed.

(** ** The penalty as a binary64 value *)

Section Rounding.

Variables prec emax : Z.

Lemma shr_1_nonneg (mrs : shr_record) : 0 <= shr_m mrs -> 0 <= shr_m (shr_1 mrs).
Proof.
  destruct mrs as [m r s]. simpl.
  destruct m as [|p|p]; [simpl; lia | | lia].
  destruct p; simpl; lia.
Qed.

Lemma iter_pos_nonneg (p : positive) (mrs : shr_record) :
  0 <= shr_m mrs -> 0 <= shr_m (SpecFloat.iter_pos shr_1 p mrs).
Proof.
  revert mrs; induction p as [p IH|p IH|]; intros mrs H; simpl;
    auto using shr_1_nonneg.
Qed.

Lemma shr_fexp_nonneg (m e : Z) (l : location) :
  0 <= m -> 0 <= shr_m (fst (shr_fexp prec emax m e l)).
Proof.
  intros H. unfold shr_fexp, shr.
  assert (0 <= shr_m (shr_record_of_loc m l)) as H0.
  { destruct l as [|[]]; exact H. }
  destruct (fexp prec emax (Zdigits2 m + e) - e); simpl; auto using iter_pos_nonneg.
Qed.

Lemma round_nearest_even_nonneg (m : Z) (l : location) :
  0 <= m -> 0 <= round_nearest_even m l.
Proof.
  intros H. destruct l as [|[]]; simpl; try lia.
  destruct (Z.even m); lia.
Qed.

(** Rounding a magnitude gives a zero, a finite value or an infinity with the
    sign asked for, never a NaN. *)
Lemma binary_round_aux_sign (sx : bool) (mx ex : Z) (lx : location) :
  0 <= mx ->
  match binary_round_aux prec emax sx mx ex lx with
  | S754_zero s | S754_infinity s | S754_finite s _ _ => s = sx
  | S754_nan => False
  end.
Proof.
  intros H. unfold binary_round_aux.
  pose proof (shr_fexp_nonneg mx ex lx H) as H1.
  destruct (shr_fexp prec emax mx ex lx) as [mrs' e']. simpl in H1.
  pose proof (shr_fexp_nonneg _ e' loc_Exact
                (round_nearest_even_nonneg _ (loc_of_shr_record mrs') H1)) as H2.
  destruct (shr_fexp prec emax _ e' loc_Exact) as [mrs'' e'']. simpl in H2.
  destruct (shr_m mrs'') as [|m|m]; [reflexivity | | lia].
  destruct (e'' <=? emax - prec); reflexivity.
Qed.

Lemma binary_normalize_sign (m e : Z) :
  0 <= m ->
  match binary_normalize prec emax m e false with
  | S754_zero s | S754_infinity s | S754_finite s _ _ => s = false
  | S754_nan => False
  end.
Proof.
  intros H. destruct m as [|p|p]; [reflexivity | | lia].
  unfold binary_normalize, binary_round.
  destruct (shl_align p e _) as [mz ez].
  apply binary_round_aux_sign. lia.
Qed.

End Rounding.

(** The penalty [-(hash_int / 2**256)] is below or equal to zero, and so is
    not 100. *)
Lemma penalty_nonpositive (hash_int : Z) :
  0 <= hash_int ->
  let penalty := py.float_neg (py.truediv_pow2 hash_int 256) in
  py.float_nonpositive penalty = true /\ py.eq_int (py.Float penalty) 100 = false.
Proof.
  intros H. unfold py.float_neg, py.truediv_pow2.
  pose proof (binary_normalize_sign 53 1024 hash_int (Z.opp 256) H) as Hs.
  destruct (binary_normalize 53 1024 hash_int (Z.opp 256) false) as [s|s| |s m e];
    try contradiction; subst s; split; reflexivity.
Qed.

(** ** Claims on [step] *)

Section StepClaims.

Import simple_bitcoin_env.

(** [bits] and [target] are fixed by [__init__]: the target is always the
    one derived from [bits]. *)
Lemma reachable_target (self : SimpleBitcoinEnv) :
  reachable self ->
  bits self = constants.BITS /\ block.bits_to_target (bits self) = Ok (target self).
Proof.
  induction 1 as [now self Hinit | self action urandom self' r _ IH Hstep
                 | self self' obs _ IH Hreset].
  - unfold init in Hinit. bind_inv Hinit. injection Hinit as <-. simpl. auto.
  - apply step_inv in Hstep
      as (? & ? & ? & ? & ? & ? & _ & _ & _ & _ & _ & _ & _ & Hb & _ & Ht & _).
    rewrite Hb, Ht. exact IH.
  - unfold reset in Hreset. bind_inv Hreset. injection Hreset as <- _. exact IH.
Qed.

(** C1: in every call to [step] that returns, [hash_int] is the block hash
    read as a big-endian integer, the target is the one derived from [bits],
    and the reward is 100 exactly when [hash_int] is strictly below the
    target; otherwise, equality included, it is the penalty
    [-(hash_int / 2**256)], a binary64 value that is not above zero. *)
Theorem step_reward self action urandom self' r :
  reachable self ->
  step self action urandom = Ok (self', r) ->
  let hash_int := info_hash_int (info r) in
  block.bits_to_target (bits self) = Ok (target self) /\
  info_target (info r) = target self /\
  block.compute_hash (info_header_fields (info r)) = Ok (info_block_hash (info r)) /\
  (exists digest, length digest = 32%nat /\
                  info_block_hash (info r) = py.hex digest /\
                  hash_int = spec.be_int digest) /\
  (py.eq_int (reward r) 100 = true <-> hash_int < target self) /\
  (hash_int < target self -> reward r = py.Int 100) /\
  (target self <= hash_int ->
     reward r = py.Float (py.float_neg (py.truediv_pow2 hash_int 256)) /\
     py.float_nonpositive (py.float_neg (py.truediv_pow2 hash_int 256)) = true) /\
  (hash_int = target self -> py.eq_int (reward r) 100 = false).
Proof.
  intros Hreach Hstep hash_int.
  destruct (reachable_target _ Hreach) as [_ Htarget].
  apply step_inv in Hstep
    as (tx_order & cb & full & hf & block_hash & h & _ & Hhash & Hint & _ & Hinfo
          & _ & _ & _ & _ & _ & _ & _ & _ & Hfound & Hmissed).
  subst hash_int. rewrite Hinfo. cbn [info_hash_int info_target info_header_fields info_block_hash].
  destruct (compute_hash_inv _ _ Hhash) as (digest & Hlen & Hhex & Hint' & Hrange).
  assert (h = spec.be_int digest) as Hh by congruence.
  assert (0 <= h) as Hpos by lia.
  destruct (penalty_nonpositive h Hpos) as [Hsign Hne].
  split; [exact Htarget|]. split; [reflexivity|]. split; [exact Hhash|].
  split; [exists digest; auto|].
  assert (Hmiss : target self <= h -> py.eq_int (reward r) 100 = false).
  { intros Hge. destruct (Hmissed Hge) as [-> _]. exact Hne. }
  split; [split|].
  - intros Heq. destruct (Z_lt_le_dec h (target self)) as [Hlt|Hge]; [exact Hlt|].
    rewrite (Hmiss Hge) in Heq. discriminate.
  - intros Hlt. destruct (Hfound Hlt) as [-> _]. reflexivity.
  - split; [intros Hlt; apply (Hfound Hlt)|].
    split.
    + intros Hge. split; [apply (Hmissed Hge) | exact Hsign].
    + intros Heq. apply Hmiss. lia.
Qed.

(** C7: a failed attempt leaves [previousblockhash], [block_height] and the
    transaction pool as they were; a successful one stores the new block
    hash, adds one to [block_height] and replaces the pool by freshly
    generated transactions. *)
Theorem step_frame self action urandom self' r :
  step self action urandom = Ok (self', r) ->
  let hash_int := info_hash_int (info r) in
  info_target (info r) = target self /\
  (target self <= hash_int ->
     previousblockhash self' = previousblockhash self /\
     block_height self' = block_height self /\
     transactions self' = transactions self /\
     num_txs self' = num_txs self) /\
  (hash_int < target self ->
     previousblockhash self' = info_block_hash (info r) /\
     block_height self' = block_height self + 1 /\
     transactions self' = generate_transactions urandom /\
     num_txs self' = Z.of_nat (length urandom)).
Proof.
  intros Hstep hash_int.
  apply step_inv in Hstep
    as (tx_order & cb & full & hf & block_hash & h & _ & _ & _ & _ & Hinfo
          & _ & _ & _ & _ & _ & _ & _ & _ & Hfound & Hmissed).
  subst hash_int. rewrite Hinfo. cbn [info_hash_int info_target info_block_hash].
  split; [reflexivity|]. split.
  - intros Hge. apply (Hmissed Hge).
  - intros Hlt. destruct (Hfound Hlt) as (_ & Hp & Hh & Ht & Hn).
    unfold generate_transactions in Hn. rewrite length_map in Hn. auto.
Qed.

(** C8: the header [step] assembles carries [base_timestamp], whatever the
    action, and after the step [current_timestamp] is [base_timestamp], which
    no step changes. *)
Theorem step_timestamp self action :
  (forall tx_order coinbase_tx full_tx_list hf,
      assemble self action = Ok (tx_order, coinbase_tx, full_tx_list, hf) ->
      block.hf_timestamp hf = base_timestamp self) /\
  (forall urandom self' r,
      step self action urandom = Ok (self', r) ->
      let timestamp := block.hf_timestamp (info_header_fields (info r)) in
      timestamp = base_timestamp self /\
      base_timestamp self <= timestamp /\
      base_timestamp self' = base_timestamp self /\
      current_timestamp self' = base_timestamp self' /\
      obs_timestamp (observation r) = base_timestamp self).
Proof.
  split.
  - intros tx_order cb full hf H. apply assemble_inv in H. tauto.
  - intros urandom self' r Hstep timestamp.
    apply step_inv in Hstep
      as (tx_order & cb & full & hf & block_hash & h & Hasm & _ & _ & _ & Hinfo
            & Hobs & _ & _ & Hbase & _ & _ & Hcur & _).
    subst timestamp. rewrite Hinfo. cbn [info_header_fields].
    apply assemble_inv in Hasm as (_ & _ & _ & _ & Ht & _).
    unfold _get_obs in Hobs. bind_inv Hobs. injection Hobs as <-. simpl.
    rewrite Ht, Hbase, Hcur. repeat split; lia.
Qed.

(** C9: the flag [done] returned by [step] is always [False], also when the
    hash is below the target. *)
Theorem step_never_done self action urandom self' r :
  step self action urandom = Ok (self', r) -> done r = false.
Proof.
  intros Hstep.
  apply step_inv in Hstep as (? & ? & ? & ? & ? & ? & _ & _ & _ & Hdone & _).
  exact Hdone.
Qed.

End StepClaims.

(** ** The claims on concrete attempts *)

Section StepExamples.

Import simple_bitcoin_env.

Lemma env0_init : init examples.now = Ok examples.env0.
Proof. vm_compute. reflexivity. Qed.

Lemma env0_reachable : reachable examples.env0.
Proof. exact (reachable_init _ _ env0_init). Qed.

Lemma step_missed : step examples.env0 examples.miss [] = examples.missed.
Proof. vm_compute. reflexivity. Qed.

Lemma step_found : step examples.env0 examples.hit examples.draws = examples.found.
Proof. vm_compute. reflexivity. Qed.

Lemma step_reward_witness :
  exists self' r,
    step examples.env0 examples.miss [] = Ok (self', r) /\
    info_target (info r) <= info_hash_int (info r) /\
    py.eq_int (reward r) 100 = false.
Proof.
  pose proof step_missed as E. unfold examples.missed in E.
  match type of E with _ = Ok (?s, ?r) => exists s, r end.
  split; [exact E|].
  pose proof (step_reward _ _ _ _ _ env0_reachable E) as (_ & _ & _ & _ & Hiff & _).
  split; [vm_compute; discriminate|].
  apply not_true_is_false. intros Heq. apply Hiff in Heq.
  revert Heq. vm_compute. discriminate.
Defined.

Lemma step_frame_witness :
  exists self' r,
    step examples.env0 examples.hit examples.draws = Ok (self', r) /\
    block_height self' = 2 /\
    previousblockhash self' = info_block_hash (info r) /\
    transactions self' = generate_transactions examples.draws.
Proof.
  pose proof step_found as E. unfold examples.found in E.
  match type of E with _ = Ok (?s, ?r) => exists s, r end.
  split; [exact E|].
  pose proof (step_frame _ _ _ _ _ E) as (_ & _ & Hfound).
  destruct Hfound as (Hp & Hh & Htx & _); [vm_compute; reflexivity|].
  split; [exact Hh|]. split; assumption.
Defined.

Lemma step_timestamp_witness :
  exists self' r,
    step examples.env0 examples.miss [] = Ok (self', r) /\
    block.hf_timestamp (info_header_fields (info r)) = examples.now /\
    current_timestamp self' = examples.now.
Proof.
  pose proof step_missed as E. unfold examples.missed in E.
  match type of E with _ = Ok (?s, ?r) => exists s, r end.
  split; [exact E|].
  pose proof (proj2 (step_timestamp examples.env0 examples.miss) _ _ _ E)
    as (Ht & _ & Hb & Hc & _).
  split; [exact Ht|]. rewrite Hc. exact Hb.
Defined.

Lemma step_never_done_witness :
  exists self' r,
    step examples.env0 examples.hit examples.draws = Ok (self', r) /\
    reward r = py.Int 100 /\ done r = false.
Proof.
  pose proof step_found as E. unfold examples.found in E.
  match type of E with _ = Ok (?s, ?r) => exists s, r end.
  split; [exact E|]. split; [reflexivity|].
  exact (step_never_done _ _ _ _ _ E).
Defined.

End StepExamples.

(** * Further properties of the code *)

(** ** Little-endian bytes *)

Lemma length_le_bytes (n : nat) (i : Z) : length (py.le_bytes n i) = n.
Proof. revert i; induction n as [|n IH]; intros i; simpl; [reflexivity | f_equal; apply IH]. Qed.

Lemma le_int_range (bs : list byte) : 0 <= spec.le_int bs < 256 ^ Z.of_nat (length bs).
Proof.
  induction bs as [|b bs IH]; cbn [spec.le_int length]; [simpl; lia|].
  rewrite Nat2Z.inj_succ, Z.pow_succ_r by lia.
  pose proof (Z_of_byte_range b). lia.
Qed.

Lemma le_int_app (l1 l2 : list byte) :
  spec.le_int (l1 ++ l2) = spec.le_int l1 + 256 ^ Z.of_nat (length l1) * spec.le_int l2.
Proof.
  induction l1 as [|b l1 IH]; cbn [spec.le_int length app]; [lia|].
  rewrite IH, Nat2Z.inj_succ, Z.pow_succ_r by lia. ring.
Qed.

(** The [n] bytes of [le_bytes] hold [i] modulo [256^n]. *)
Lemma le_int_le_bytes (n : nat) (i : Z) :
  spec.le_int (py.le_bytes n i) = i mod 256 ^ Z.of_nat n.
Proof.
  revert i; induction n as [|n IH]; intros i.
  - simpl. rewrite Z.mod_1_r. reflexivity.
  - cbn [py.le_bytes spec.le_int]. rewrite IH, Z_of_byte_of_Z.
    change 255 with (Z.ones 8). rewrite Z.land_ones, Z.shiftr_div_pow2 by lia.
    change (2 ^ 8) with 256. rewrite Z.mod_mod by lia.
    rewrite Nat2Z.inj_succ, Z.pow_succ_r by lia.
    rewrite (Z.rem_mul_r i 256 (256 ^ Z.of_nat n)) by lia. reflexivity.
Qed.

Lemma le_int_le_bytes_small (n : nat) (i : Z) :
  0 <= i < 256 ^ Z.of_nat n -> spec.le_int (py.le_bytes n i) = i.
Proof. intros H. rewrite le_int_le_bytes. apply Z.mod_small. exact H. Qed.

Lemma to_bytes_little_Ok (n : nat) (i : Z) :
  0 <= i < 256 ^ Z.of_nat n -> py.to_bytes_little n i = Ok (py.le_bytes n i).
Proof.
  intros [H1 H2]. unfold py.to_bytes_little.
  apply Z.leb_le in H1. apply Z.ltb_lt in H2. rewrite H1, H2. reflexivity.
Qed.

Lemma to_bytes_little_Raise (n : nat) (i : Z) :
  i < 0 \/ 256 ^ Z.of_nat n <= i -> py.to_bytes_little n i = Raise OverflowError.
Proof.
  intros H. unfold py.to_bytes_little.
  destruct (0 <=? i) eqn:E1; [|reflexivity].
  destruct (i <? 256 ^ Z.of_nat n) eqn:E2; [|reflexivity].
  apply Z.leb_le in E1. apply Z.ltb_lt in E2. lia.
Qed.

Lemma struct_pack_u32_Ok (v : Z) :
  0 <= v < 2 ^ 32 -> py.struct_pack_u32 v = Ok (py.le_bytes 4 v).
Proof.
  intros [H1 H2]. unfold py.struct_pack_u32.
  apply Z.leb_le in H1. apply Z.ltb_lt in H2. rewrite H1, H2. reflexivity.
Qed.

Lemma struct_pack_u32_Raise (v : Z) :
  ~ 0 <= v < 2 ^ 32 -> py.struct_pack_u32 v = Raise StructError.
Proof.
  intros H. unfold py.struct_pack_u32.
  destruct (0 <=? v) eqn:E1; [|reflexivity].
  destruct (v <? 2 ^ 32) eqn:E2; [|reflexivity].
  apply Z.leb_le in E1. apply Z.ltb_lt in E2. lia.
Qed.

(** ** [encode_varint] *)

(** The marker byte and the payload width [encode_varint] picks for [i]. *)
Lemma encode_varint_cases (i : Z) :
  0 <= i < 2 ^ 64 ->
  (i < 0xfd /\ block.encode_varint i = Ok (py.le_bytes 1 i)) \/
  (0xfd <= i <= 0xffff /\
   block.encode_varint i = Ok (py.byte_of_Z 0xfd :: py.le_bytes 2 i)) \/
  (0xffff < i <= 0xffffffff /\
   block.encode_varint i = Ok (py.byte_of_Z 0xfe :: py.le_bytes 4 i)) \/
  (0xffffffff < i /\
   block.encode_varint i = Ok (py.byte_of_Z 0xff :: py.le_bytes 8 i)).
Proof.
  intros H. unfold block.encode_varint.
  destruct (i <? 0xfd) eqn:E1.
  { apply Z.ltb_lt in E1. left. split; [exact E1|].
    apply to_bytes_little_Ok. simpl. lia. }
  apply Z.ltb_ge in E1. right.
  destruct (i <=? 0xffff) eqn:E2.
  { apply Z.leb_le in E2. left. split; [lia|].
    rewrite to_bytes_little_Ok by (simpl; lia). reflexivity. }
  apply Z.leb_gt in E2. right.
  destruct (i <=? 0xffffffff) eqn:E3.
  { apply Z.leb_le in E3. left. split; [lia|].
    rewrite to_bytes_little_Ok by (simpl; lia). reflexivity. }
  apply Z.leb_gt in E3. right. split; [lia|].
  rewrite to_bytes_little_Ok by (simpl; lia). reflexivity.
Qed.

(** [encode_varint] returns exactly on [0, 2^64); there the encoding takes
    1, 3, 5 or 9 bytes by the size of [i]: below 0xfd the byte [i] itself,
    otherwise a marker 0xfd, 0xfe or 0xff followed by the 2, 4 or 8
    little-endian bytes of [i]. Outside that range the call raises
    OverflowError. *)
Theorem encode_varint_shape (i : Z) :
  (0 <= i < 2 ^ 64 ->
   exists marker payload,
     block.encode_varint i = Ok (marker ++ payload) /\
     spec.le_int payload = i /\
     ((i < 0xfd /\ marker = [] /\ length payload = 1%nat) \/
      (0xfd <= i <= 0xffff /\ marker = [py.byte_of_Z 0xfd] /\ length payload = 2%nat) \/
      (0xffff < i <= 0xffffffff /\ marker = [py.byte_of_Z 0xfe] /\ length payload = 4%nat) \/
      (0xffffffff < i /\ marker = [py.byte_of_Z 0xff] /\ length payload = 8%nat))) /\
  (~ 0 <= i < 2 ^ 64 -> block.encode_varint i = Raise OverflowError).
Proof.
  split.
  - intros H.
    destruct (encode_varint_cases i H) as [[Hr E]|[[Hr E]|[[Hr E]|[Hr E]]]].
    + exists [], (py.le_bytes 1 i). split; [exact E|].
      split; [apply le_int_le_bytes_small; simpl; lia|]. left. auto.
    + exists [py.byte_of_Z 0xfd], (py.le_bytes 2 i). split; [exact E|].
      split; [apply le_int_le_bytes_small; simpl; lia|]. right; left. auto.
    + exists [py.byte_of_Z 0xfe], (py.le_bytes 4 i). split; [exact E|].
      split; [apply le_int_le_bytes_small; simpl; lia|]. right; right; left. auto.
    + exists [py.byte_of_Z 0xff], (py.le_bytes 8 i). split; [exact E|].
      split; [apply le_int_le_bytes_small; simpl; lia|]. right; right; right. auto.
  - intros H. unfold block.encode_varint.
    destruct (i <? 0xfd) eqn:E1.
    { apply Z.ltb_lt in E1. apply to_bytes_little_Raise. lia. }
    apply Z.ltb_ge in E1.
    destruct (i <=? 0xffff) eqn:E2; [apply Z.leb_le in E2; lia|].
    destruct (i <=? 0xffffffff) eqn:E3; [apply Z.leb_le in E3; lia|].
    rewrite to_bytes_little_Raise by (simpl; lia). reflexivity.
Qed.

Lemma encode_varint_shape_witness :
  (exists marker payload,
      block.encode_varint 300 = Ok (marker ++ payload) /\ spec.le_int payload = 300) /\
  block.encode_varint (-1) = Raise OverflowError.
Proof.
  split.
  - destruct (proj1 (encode_varint_shape 300) ltac:(lia)) as (m & p & E & Hp & _).
    exists m, p. split; assumption.
  - apply (proj2 (encode_varint_shape (-1))). lia.
Defined.

(** Two lengths in [0, 2^64) with the same encoding are equal: a reader can
    tell every length from its varint. *)
Theorem encode_varint_injective (i j : Z) (bs : list byte) :
  0 <= i < 2 ^ 64 -> 0 <= j < 2 ^ 64 ->
  block.encode_varint i = Ok bs -> block.encode_varint j = Ok bs -> i = j.
Proof.
  intros Hi Hj Ei Ej.
  assert (Hdec : forall k, 0 <= k < 2 ^ 64 -> block.encode_varint k = Ok bs ->
                   k = if (length bs =? 1)%nat then spec.le_int bs
                       else spec.le_int (tl bs)).
  { intros k Hk Ek.
    destruct (encode_varint_cases k Hk) as [[Hr E]|[[Hr E]|[[Hr E]|[Hr E]]]];
      rewrite E in Ek; apply Ok_inj in Ek; subst bs;
      cbn [length tl]; rewrite length_le_bytes; cbn [Nat.eqb];
      symmetry; apply le_int_le_bytes_small; simpl; lia. }
  rewrite (Hdec i Hi Ei), (Hdec j Hj Ej). reflexivity.
Qed.

Lemma encode_varint_injective_witness :
  block.encode_varint 70000 = Ok (py.byte_of_Z 0xfe :: py.le_bytes 4 70000) /\
  70000 = 70000.
Proof.
  assert (E : block.encode_varint 70000 = Ok (py.byte_of_Z 0xfe :: py.le_bytes 4 70000))
    by reflexivity.
  split; [exact E|].
  apply (encode_varint_injective 70000 70000 _ ltac:(lia) ltac:(lia) E E).
Defined.

(** ** [encode_script_num] *)

Lemma magnitude_bytes_app (fuel : nat) (a : Z) (res : list byte) :
  block.magnitude_bytes fuel a res = res ++ block.magnitude_bytes fuel a [].
Proof.
  revert a res; induction fuel as [|fuel IH]; intros a res; simpl.
  - rewrite app_nil_r. reflexivity.
  - destruct (a =? 0); [rewrite app_nil_r; reflexivity|].
    rewrite (IH _ (res ++ _)), (IH _ [_]), <- app_assoc. reflexivity.
Qed.

Lemma magnitude_bytes_zero (fuel : nat) : block.magnitude_bytes fuel 0 [] = [].
Proof. destruct fuel; reflexivity. Qed.

(** With enough fuel the loop stops on [abs_num = 0]: the bytes hold the
    magnitude, and the last one is not zero. *)
Lemma magnitude_bytes_value (fuel : nat) (a : Z) :
  0 <= a < 256 ^ Z.of_nat fuel ->
  spec.le_int (block.magnitude_bytes fuel a []) = a /\
  (0 < a -> exists init l, block.magnitude_bytes fuel a [] = init ++ [l] /\
                           0 < py.Z_of_byte l).
Proof.
  revert a; induction fuel as [|fuel IH]; intros a Ha.
  - simpl in *. split; [lia|]. intros; lia.
  - rewrite Nat2Z.inj_succ, Z.pow_succ_r in Ha by lia.
    cbn [block.magnitude_bytes].
    destruct (a =? 0) eqn:E0.
    { apply Z.eqb_eq in E0. subst a. split; [reflexivity|]. intros; lia. }
    apply Z.eqb_neq in E0.
    rewrite magnitude_bytes_app. cbn [app].
    change 0xff with (Z.ones 8). rewrite Z.land_ones, Z.shiftr_div_pow2 by lia.
    change (2 ^ 8) with 256.
    assert (Hq : 0 <= a / 256 < 256 ^ Z.of_nat fuel).
    { split; [apply Z.div_pos; lia | apply Z.div_lt_upper_bound; lia]. }
    destruct (IH _ Hq) as [Hv Hl].
    pose proof (Z.mod_pos_bound a 256 ltac:(lia)) as Hm.
    split.
    + cbn [spec.le_int]. rewrite Hv, Z_of_byte_of_Z, Z.mod_mod by lia.
      pose proof (Z.div_mod a 256 ltac:(lia)). lia.
    + intros _. destruct (Z.eq_dec (a / 256) 0) as [Ez|Ez].
      * rewrite Ez, magnitude_bytes_zero. exists [], (py.byte_of_Z (a mod 256)).
        split; [reflexivity|]. rewrite Z_of_byte_of_Z, Z.mod_mod by lia.
        pose proof (Z.div_mod a 256 ltac:(lia)). lia.
      * destruct Hl as (init & l & El & Hpos); [lia|].
        exists (py.byte_of_Z (a mod 256) :: init), l. rewrite El. auto.
Qed.

Lemma magnitude_fuel_enough (a : Z) :
  0 < a -> a < 256 ^ Z.of_nat (block.magnitude_fuel a).
Proof.
  intros Ha. unfold block.magnitude_fuel.
  pose proof (Z.log2_nonneg a) as Hl.
  destruct (Z.log2_spec a Ha) as [_ Hlt].
  rewrite Nat2Z.inj_succ, Z2Nat.id by lia.
  eapply Z.lt_le_trans; [exact Hlt|].
  change 256 with (2 ^ 8). rewrite <- Z.pow_mul_r by lia.
  apply Z.pow_le_mono_r; lia.
Qed.

Lemma byte_sign_bit (b : byte) :
  (Z.land (py.Z_of_byte b) 0x80 =? 0) = (py.Z_of_byte b <? 128) /\
  Z.lor (py.Z_of_byte b) 0x80 = py.Z_of_byte b mod 128 + 128.
Proof. destruct b; split; reflexivity. Qed.

Lemma script_num_value_snoc (l : list byte) (x : byte) :
  spec.script_num_value (l ++ [x]) =
  let top := 128 * 256 ^ Z.of_nat (length l) in
  let v := spec.le_int l + 256 ^ Z.of_nat (length l) * py.Z_of_byte x in
  if v <? top then v else top - v.
Proof.
  assert (E : spec.script_num_value (l ++ [x]) =
              let top := 128 * 256 ^ (Z.of_nat (length (l ++ [x])) - 1) in
              if spec.le_int (l ++ [x]) <? top then spec.le_int (l ++ [x])
              else top - spec.le_int (l ++ [x])).
  { destruct l; reflexivity. }
  rewrite E, le_int_app, length_app. cbn [length spec.le_int].
  replace (Z.of_nat (length l + 1) - 1) with (Z.of_nat (length l)) by lia.
  rewrite Z.mul_0_r, Z.add_0_r. reflexivity.
Qed.

Lemma script_num_roundtrip (num : Z) :
  spec.script_num_value (block.encode_script_num num) = num /\
  (block.encode_script_num num = [] <-> num = 0).
Proof.
  unfold block.encode_script_num.
  destruct (num =? 0) eqn:E0.
  { apply Z.eqb_eq in E0. subst num. split; [reflexivity | tauto]. }
  apply Z.eqb_neq in E0.
  assert (Ha : 0 < Z.abs num) by lia.
  pose proof (magnitude_fuel_enough _ Ha) as Hfuel.
  destruct (magnitude_bytes_value (block.magnitude_fuel (Z.abs num)) (Z.abs num)
              ltac:(lia)) as [Hv Hl].
  destruct (Hl Ha) as (init & l & El & Hpos). clear Hl.
  rewrite El in *. rewrite last_last, removelast_last.
  rewrite le_int_app in Hv. cbn [spec.le_int] in Hv.
  rewrite Z.mul_0_r, Z.add_0_r in Hv.
  pose proof (le_int_range init) as Hi.
  pose proof (Z_of_byte_range l) as Hlr.
  destruct (byte_sign_bit l) as [Hbit Hor].
  rewrite Hbit.
  assert (Hp : 0 < 256 ^ Z.of_nat (length init)) by (apply Z.pow_pos_nonneg; lia).
  destruct (py.Z_of_byte l <? 128) eqn:Esmall; cbn [negb].
  - apply Z.ltb_lt in Esmall.
    destruct (num <? 0) eqn:Eneg.
    + apply Z.ltb_lt in Eneg. split.
      * rewrite script_num_value_snoc. cbv zeta.
        rewrite Z_of_byte_of_Z, Hor, (Z.mod_small (py.Z_of_byte l) 128) by lia.
        rewrite (Z.mod_small (_ + 128) 256) by lia.
        destruct (_ <? _) eqn:Ec; [apply Z.ltb_lt in Ec|apply Z.ltb_ge in Ec]; nia.
      * split; [intros H; destruct init; discriminate H | lia].
    + apply Z.ltb_ge in Eneg. split.
      * rewrite script_num_value_snoc. cbv zeta.
        destruct (_ <? _) eqn:Ec; [apply Z.ltb_lt in Ec|apply Z.ltb_ge in Ec]; nia.
      * split; [intros H; destruct init; discriminate H | lia].
  - apply Z.ltb_ge in Esmall. split.
    + rewrite script_num_value_snoc. cbv zeta.
      rewrite le_int_app, length_app. cbn [spec.le_int length].
      rewrite Z.mul_0_r, Z.add_0_r, Z_of_byte_of_Z.
      replace (Z.of_nat (length init + 1)) with (Z.succ (Z.of_nat (length init))) by lia.
      rewrite Z.pow_succ_r by lia.
      destruct (num <? 0) eqn:Eneg; [apply Z.ltb_lt in Eneg|apply Z.ltb_ge in Eneg];
        [change (128 mod 256) with 128 | change (0 mod 256) with 0];
        destruct (_ <? _) eqn:Ec; [apply Z.ltb_lt in Ec|apply Z.ltb_ge in Ec| |]; nia.
    + split; [intros H; destruct init; discriminate H | lia].
Qed.

(** The bytes [encode_script_num] returns stand for [num]: read as a
    little-endian magnitude with the sign in the top bit of the last byte
    they give [num] back, for every integer; and only zero has the empty
    encoding. *)
Theorem encode_script_num_value (num : Z) :
  spec.script_num_value (block.encode_script_num num) = num /\
  (block.encode_script_num num = [] <-> num = 0).
Proof. exact (script_num_roundtrip num). Qed.

Lemma length_magnitude_bytes (fuel : nat) (a : Z) :
  (length (block.magnitude_bytes fuel a []) <= fuel)%nat.
Proof.
  revert a; induction fuel as [|fuel IH]; intros a; simpl; [lia|].
  destruct (a =? 0); [simpl; lia|].
  rewrite magnitude_bytes_app. simpl. specialize (IH (Z.shiftr a 8)). lia.
Qed.

(** A height below 2^32 takes at most five bytes plus a sign byte in this
    bound: at most 34. *)
Lemma length_encode_script_num (num : Z) :
  0 <= num < 2 ^ 32 -> (length (block.encode_script_num num) <= 34)%nat.
Proof.
  intros H. unfold block.encode_script_num.
  destruct (num =? 0) eqn:E0; [simpl; lia|]. apply Z.eqb_neq in E0.
  pose proof (length_magnitude_bytes (block.magnitude_fuel (Z.abs num)) (Z.abs num)) as Hlen.
  assert (Hf : (block.magnitude_fuel (Z.abs num) <= 32)%nat).
  { unfold block.magnitude_fuel.
    assert (Z.log2 (Z.abs num) < 32) by (apply Z.log2_lt_pow2; lia).
    pose proof (Z.log2_nonneg (Z.abs num)). lia. }
  set (bs := block.magnitude_bytes _ _ _) in *.
  destruct (negb _); [rewrite length_app; simpl; lia|].
  destruct (num <? 0); [|lia].
  rewrite length_app. simpl.
  rewrite removelast_firstn_len, length_firstn. lia.
Qed.

(** ** [address_to_script_pubkey] *)

(** A script [address_to_script_pubkey] returns is a pay-to-public-key-hash
    script of 25 bytes: 76 a9 14, the twenty bytes that follow the version
    byte of the decoded address, then 88 ac. When the decoded address holds
    another number of bytes the call raises ValueError, and an error of the
    decoder is passed on. *)
Theorem address_to_script_pubkey_shape (address : string) :
  match base58.b58decode_check address with
  | Raise e => block.address_to_script_pubkey address = Raise e
  | Ok decoded =>
      if (length decoded =? 21)%nat then
        exists pubkey_hash script,
          block.address_to_script_pubkey address = Ok script /\
          length pubkey_hash = 20%nat /\
          decoded = firstn 1 decoded ++ pubkey_hash /\
          script = map py.byte_of_Z [0x76; 0xa9; 0x14] ++ pubkey_hash
                     ++ map py.byte_of_Z [0x88; 0xac] /\
          length script = 25%nat
      else block.address_to_script_pubkey address = Raise ValueError
  end.
Proof.
  unfold block.address_to_script_pubkey.
  destruct (base58.b58decode_check address) as [decoded|e]; [|reflexivity].
  cbn [bind].
  destruct (length decoded =? 21)%nat eqn:E.
  - apply Nat.eqb_eq in E.
    assert (Hl : length (skipn 1 decoded) = 20%nat) by (rewrite length_skipn; lia).
    rewrite Hl. cbn [Nat.eqb negb].
    eexists (skipn 1 decoded), _. split; [reflexivity|].
    split; [exact Hl|]. split; [symmetry; apply firstn_skipn|].
    split; [reflexivity|].
    rewrite !length_app, Hl. reflexivity.
  - apply Nat.eqb_neq in E.
    destruct (length (skipn 1 decoded) =? 20)%nat eqn:E2; [|reflexivity].
    apply Nat.eqb_eq in E2. rewrite length_skipn in E2. lia.
Qed.

Lemma address_to_script_pubkey_length (address : string) (script : list byte) :
  block.address_to_script_pubkey address = Ok script -> length script = 25%nat.
Proof.
  unfold block.address_to_script_pubkey. intros H. bind_inv H.
  destruct (length (skipn 1 v) =? 20)%nat eqn:El; [|discriminate].
  apply Nat.eqb_eq in El. cbn [negb] in H. apply Ok_inj in H. subst script.
  rewrite !length_app, El. reflexivity.
Qed.

(** ** [create_coinbase_tx] *)

Lemma length_encode (s : string) : length (py.encode s) = String.length s.
Proof.
  unfold py.encode, list_byte_of_string.
  rewrite length_map. induction s as [|c s IH]; simpl; [reflexivity | f_equal; exact IH].
Qed.

Lemma length_coinbase_script_sig (h e : Z) (msg : string) :
  length (spec.coinbase_script_sig h e msg) =
  (1 + length (block.encode_script_num h) + 4 + String.length msg)%nat.
Proof.
  unfold spec.coinbase_script_sig.
  rewrite !length_app, length_le_bytes, length_encode. simpl. lia.
Qed.

(** The bytes [create_coinbase_tx] returns when every field fits. *)
Lemma create_coinbase_tx_Ok (h e : Z) (msg address : string) (script : list byte) :
  0 <= h < 2 ^ 32 ->
  0 <= e < 2 ^ 32 ->
  Z.of_nat (String.length msg) < 2 ^ 32 ->
  block.address_to_script_pubkey address = Ok script ->
  exists sig_len,
    block.encode_varint (Z.of_nat (length (spec.coinbase_script_sig h e msg))) = Ok sig_len /\
    block.create_coinbase_tx h e msg address =
    Ok (py.le_bytes 4 1 ++ [py.byte_of_Z 1]
          ++ (repeat Byte.x00 32 ++ repeat (py.byte_of_Z 0xff) 4 ++ sig_len
                ++ spec.coinbase_script_sig h e msg ++ repeat (py.byte_of_Z 0xff) 4)
          ++ [py.byte_of_Z 1]
          ++ (py.le_bytes 8 5000000000 ++ py.le_bytes 1 25 ++ script)
          ++ repeat Byte.x00 4).
Proof.
  intros Hh He Hmsg Haddr.
  pose proof (length_encode_script_num h Hh) as Hlen.
  pose proof (length_coinbase_script_sig h e msg) as Hsig.
  assert (Hvar : 0 <= Z.of_nat (length (spec.coinbase_script_sig h e msg)) < 2 ^ 64) by lia.
  assert (exists sig_len,
             block.encode_varint (Z.of_nat (length (spec.coinbase_script_sig h e msg)))
             = Ok sig_len) as [sig_len Hsl].
  { destruct (encode_varint_cases _ Hvar) as [[_ E]|[[_ E]|[[_ E]|[_ E]]]];
      rewrite E; eexists; reflexivity. }
  exists sig_len. split; [exact Hsl|].
  unfold block.create_coinbase_tx.
  rewrite (struct_pack_u32_Ok 1) by lia. cbn [bind].
  unfold py.bytes_of_int.
  assert (Hb : (0 <=? Z.of_nat (length (block.encode_script_num h)))
               && (Z.of_nat (length (block.encode_script_num h)) <? 256) = true).
  { apply andb_true_iff. split; [apply Z.leb_le | apply Z.ltb_lt]; lia. }
  rewrite Hb. cbn [bind].
  rewrite (struct_pack_u32_Ok e He). cbn [bind].
  change ([py.byte_of_Z (Z.of_nat (length (block.encode_script_num h)))]
            ++ block.encode_script_num h)
    with (py.byte_of_Z (Z.of_nat (length (block.encode_script_num h)))
            :: block.encode_script_num h).
  fold (spec.coinbase_script_sig h e msg).
  rewrite Hsl. cbn [bind].
  change (py.struct_pack_u64 (50 * 100000000)) with (Ok (py.le_bytes 8 5000000000)).
  cbn [bind]. rewrite Haddr. cbn [bind].
  rewrite (address_to_script_pubkey_length _ _ Haddr).
  change (block.encode_varint (Z.of_nat 25)) with (Ok (py.le_bytes 1 25)).
  cbn [bind]. reflexivity.
Qed.

Lemma default_address_script :
  exists script, block.address_to_script_pubkey block.default_address = Ok script.
Proof. eexists. vm_compute. reflexivity. Qed.

(** With a height below 2^32, a message shorter than 2^32 bytes and an
    address that decodes, [create_coinbase_tx] returns exactly when
    [extra_nonce] fits 32 unsigned bits; otherwise [struct.pack] raises. *)
Theorem create_coinbase_tx_returns (h e : Z) (msg address : string) (script : list byte) :
  0 <= h < 2 ^ 32 ->
  Z.of_nat (String.length msg) < 2 ^ 32 ->
  block.address_to_script_pubkey address = Ok script ->
  (returns (block.create_coinbase_tx h e msg address) <-> 0 <= e < 2 ^ 32) /\
  (~ 0 <= e < 2 ^ 32 -> block.create_coinbase_tx h e msg address = Raise StructError).
Proof.
  intros Hh Hmsg Haddr.
  assert (Hraise : ~ 0 <= e < 2 ^ 32 ->
                   block.create_coinbase_tx h e msg address = Raise StructError).
  { intros He. unfold block.create_coinbase_tx.
    rewrite (struct_pack_u32_Ok 1) by lia. cbn [bind].
    pose proof (length_encode_script_num h Hh) as Hlen.
    unfold py.bytes_of_int.
    assert (Hb : (0 <=? Z.of_nat (length (block.encode_script_num h)))
                 && (Z.of_nat (length (block.encode_script_num h)) <? 256) = true).
    { apply andb_true_iff. split; [apply Z.leb_le | apply Z.ltb_lt]; lia. }
    rewrite Hb. cbn [bind].
    rewrite (struct_pack_u32_Raise e He). reflexivity. }
  split; [split|exact Hraise].
  - intros [tx Htx].
    destruct (Z_le_dec 0 e) as [H0|H0]; [destruct (Z_lt_dec e (2 ^ 32)) as [H1|H1]|];
      [lia | | ]; rewrite Hraise in Htx by lia; discriminate.
  - intros He.
    destruct (create_coinbase_tx_Ok h e msg address script Hh He Hmsg Haddr)
      as (sig_len & _ & Htx).
    eexists. exact Htx.
Qed.

Lemma create_coinbase_tx_returns_witness :
  returns (block.create_coinbase_tx 1 7 "Mining with RL" block.default_address) /\
  block.create_coinbase_tx 1 (2 ^ 32) "Mining with RL" block.default_address
    = Raise StructError.
Proof.
  destruct default_address_script as [script Hs].
  pose proof (create_coinbase_tx_returns 1 7 "Mining with RL" _ script
                ltac:(lia) ltac:(simpl; lia) Hs) as [H7 _].
  pose proof (create_coinbase_tx_returns 1 (2 ^ 32) "Mining with RL" _ script
                ltac:(lia) ltac:(simpl; lia) Hs) as [_ Hbig].
  split; [apply H7; lia | apply Hbig; lia].
Defined.

(** The coinbase transaction, field by field: version 1, one input that
    spends the null outpoint (32 zero bytes, index 0xffffffff), the scriptSig
    with its varint length, sequence 0xffffffff, one output of 5,000,000,000
    satoshis to the 25-byte script, and a zero lock time. The scriptSig is the
    push of the height, the four little-endian bytes of the extra nonce and
    the message; the height and the extra nonce decode back. *)
Theorem create_coinbase_tx_layout (h e : Z) (msg address : string) (script : list byte) :
  0 <= h < 2 ^ 32 ->
  0 <= e < 2 ^ 32 ->
  Z.of_nat (String.length msg) < 2 ^ 32 ->
  block.address_to_script_pubkey address = Ok script ->
  exists sig_len height_bytes nonce_bytes value,
    block.create_coinbase_tx h e msg address =
    Ok (map py.byte_of_Z [1; 0; 0; 0] ++ [py.byte_of_Z 1]
          ++ repeat Byte.x00 32 ++ repeat (py.byte_of_Z 0xff) 4
          ++ sig_len
          ++ ([py.byte_of_Z (Z.of_nat (length height_bytes))] ++ height_bytes
                ++ nonce_bytes ++ py.encode msg)
          ++ repeat (py.byte_of_Z 0xff) 4
          ++ [py.byte_of_Z 1] ++ value ++ [py.byte_of_Z 25] ++ script
          ++ repeat Byte.x00 4) /\
    block.encode_varint
      (Z.of_nat (1 + length height_bytes + 4 + String.length msg)) = Ok sig_len /\
    spec.script_num_value height_bytes = h /\
    length nonce_bytes = 4%nat /\ spec.le_int nonce_bytes = e /\
    length value = 8%nat /\ spec.le_int value = 5000000000 /\
    length script = 25%nat.
Proof.
  intros Hh He Hmsg Haddr.
  destruct (create_coinbase_tx_Ok h e msg address script Hh He Hmsg Haddr)
    as (sig_len & Hsl & Htx).
  exists sig_len, (block.encode_script_num h), (py.le_bytes 4 e), (py.le_bytes 8 5000000000).
  split.
  - rewrite Htx. unfold spec.coinbase_script_sig.
    change (py.le_bytes 4 1) with (map py.byte_of_Z [1; 0; 0; 0]).
    change (py.le_bytes 1 25) with [py.byte_of_Z 25].
    f_equal. rewrite <- !app_assoc. reflexivity.
  - rewrite length_coinbase_script_sig in Hsl.
    split; [exact Hsl|].
    split; [apply script_num_roundtrip|].
    split; [apply length_le_bytes|].
    split; [apply le_int_le_bytes_small; simpl; lia|].
    split; [reflexivity|].
    split; [reflexivity|].
    apply (address_to_script_pubkey_length _ _ Haddr).
Qed.

Lemma create_coinbase_tx_layout_witness :
  exists tx, block.create_coinbase_tx 1 7 "Mining with RL" block.default_address = Ok tx /\
             firstn 5 tx = map py.byte_of_Z [1; 0; 0; 0; 1].
Proof.
  destruct default_address_script as [script Hs].
  destruct (create_coinbase_tx_layout 1 7 "Mining with RL" _ script
              ltac:(lia) ltac:(lia) ltac:(simpl; lia) Hs)
    as (sig_len & hb & nb & v & Htx & _).
  eexists. split; [exact Htx | reflexivity].
Defined.

(** Two extra nonces in range that give the same coinbase transaction (same
    height, message and address) are equal: a change of the extra nonce
    always changes the bytes that are hashed. *)
Theorem create_coinbase_tx_extra_nonce_injective
    (h e1 e2 : Z) (msg address : string) (tx : list byte) :
  0 <= h < 2 ^ 32 ->
  0 <= e1 < 2 ^ 32 -> 0 <= e2 < 2 ^ 32 ->
  Z.of_nat (String.length msg) < 2 ^ 32 ->
  block.create_coinbase_tx h e1 msg address = Ok tx ->
  block.create_coinbase_tx h e2 msg address = Ok tx ->
  e1 = e2.
Proof.
  intros Hh He1 He2 Hmsg H1 H2.
  assert (exists script, block.address_to_script_pubkey address = Ok script)
    as [script Haddr].
  { unfold block.create_coinbase_tx in H1.
    do 6 bind_inv H1. eexists. eassumption. }
  destruct (create_coinbase_tx_Ok h e1 msg address script Hh He1 Hmsg Haddr)
    as (sl1 & Hs1 & Ht1).
  destruct (create_coinbase_tx_Ok h e2 msg address script Hh He2 Hmsg Haddr)
    as (sl2 & Hs2 & Ht2).
  rewrite !length_coinbase_script_sig in *.
  assert (sl1 = sl2) by congruence. subst sl2.
  rewrite Ht1 in H1. rewrite Ht2 in H2.
  apply Ok_inj in H1. apply Ok_inj in H2. rewrite <- H2 in H1. clear - H1 He1 He2.
  apply (app_inv_head (py.le_bytes 4 1)) in H1.
  apply (app_inv_head [py.byte_of_Z 1]) in H1.
  apply app_inv_tail in H1.
  apply (app_inv_head (repeat Byte.x00 32)) in H1.
  apply (app_inv_head (repeat (py.byte_of_Z 0xff) 4)) in H1.
  apply (app_inv_head sl1) in H1.
  apply app_inv_tail in H1.
  unfold spec.coinbase_script_sig in H1.
  apply app_inv_head in H1.
  assert (Hn : py.le_bytes 4 e1 = py.le_bytes 4 e2).
  { exact (app_inv_tail _ _ _ H1). }
  apply (f_equal spec.le_int) in Hn.
  rewrite !le_int_le_bytes_small in Hn by (simpl; lia). exact Hn.
Qed.

Lemma create_coinbase_tx_extra_nonce_injective_witness :
  exists tx, block.create_coinbase_tx 1 7 "Mining with RL" block.default_address = Ok tx /\
             7 = 7.
Proof.
  destruct default_address_script as [script Hs].
  destruct (create_coinbase_tx_Ok 1 7 "Mining with RL" _ script
              ltac:(lia) ltac:(lia) ltac:(simpl; lia) Hs) as (sl & _ & Htx).
  eexists. split; [exact Htx|].
  exact (create_coinbase_tx_extra_nonce_injective 1 7 7 "Mining with RL"
           block.default_address _
           ltac:(lia) ltac:(lia) ltac:(lia) ltac:(simpl; lia) Htx Htx).
Defined.

(** ** [txid] *)

Lemma length_hex (bs : list byte) : String.length (py.hex bs) = (2 * length bs)%nat.
Proof. induction bs as [|b bs IH]; simpl; [reflexivity | rewrite IH; lia]. Qed.

(** A transaction id is a text of 64 hexadecimal digits; [bytes.fromhex]
    reads it back as the double SHA-256 of the transaction in reverse byte
    order, and as a number it is below 2^256. *)
Theorem txid_shape (tx_bytes : list byte) :
  String.length (block.txid tx_bytes) = 64%nat /\
  py.fromhex (block.txid tx_bytes) = Ok (rev (block.double_sha256 tx_bytes)) /\
  length (block.double_sha256 tx_bytes) = 32%nat /\
  exists v, py.int16 (block.txid tx_bytes) = Ok v /\ 0 <= v < 2 ^ 256.
Proof.
  unfold block.txid. fold (block.double_sha256 tx_bytes).
  assert (Hlen : length (rev (block.double_sha256 tx_bytes)) = 32%nat).
  { rewrite length_rev. apply length_sha256. }
  split; [rewrite length_hex, Hlen; reflexivity|].
  split; [apply fromhex_hex|].
  split; [apply length_sha256|].
  exists (spec.be_int (rev (block.double_sha256 tx_bytes))). split.
  - apply int16_hex. intros Hnil. rewrite Hnil in Hlen. discriminate.
  - pose proof (be_int_range (rev (block.double_sha256 tx_bytes))) as Hr.
    rewrite Hlen in Hr. exact Hr.
Qed.

(** ** [merkle_root] *)

Lemma index_nth {A : Type} (l : list A) (n : nat) (x : A) :
  nth_error l n = Some x -> py.index l (Z.of_nat n) = Ok x.
Proof.
  intros H. unfold py.index.
  assert (n < length l)%nat by (apply nth_error_Some; congruence).
  destruct (Z.of_nat n <? 0) eqn:E; [apply Z.ltb_lt in E; lia|].
  assert (Hr : (0 <=? Z.of_nat n) && (Z.of_nat n <? Z.of_nat (length l)) = true).
  { apply andb_true_iff. split; [apply Z.leb_le | apply Z.ltb_lt]; lia. }
  rewrite Hr, Nat2Z.id, H. reflexivity.
Qed.

Lemma index_last {A : Type} (l : list A) (d : A) :
  l <> [] -> py.index l (-1) = Ok (List.last l d).
Proof.
  intros Hne. destruct (exists_last Hne) as (init & x & ->).
  rewrite last_last. unfold py.index. rewrite length_app. cbn [length].
  change (-1 <? 0) with true. cbv iota.
  assert (Hr : (0 <=? -1 + Z.of_nat (length init + 1))
               && (-1 + Z.of_nat (length init + 1) <? Z.of_nat (length init + 1)) = true).
  { apply andb_true_iff. split; [apply Z.leb_le | apply Z.ltb_lt]; lia. }
  rewrite Hr. replace (Z.to_nat (-1 + Z.of_nat (length init + 1))) with (length init) by lia.
  rewrite nth_error_app2, Nat.sub_diag by lia. reflexivity.
Qed.

Lemma mapM_app {A B : Type} (f : A -> result B) (l1 l2 : list A) :
  mapM f (l1 ++ l2) =
  let* a := mapM f l1 in let* b := mapM f l2 in Ok (a ++ b).
Proof.
  induction l1 as [|x l1 IH]; simpl.
  - destruct (mapM f l2); reflexivity.
  - destruct (f x); simpl; [|reflexivity]. rewrite IH.
    destruct (mapM f l1); simpl; [|reflexivity].
    destruct (mapM f l2); reflexivity.
Qed.

(** The loop over [range(0, len(hashes), 2)] pairs the hashes in order:
    no index is out of range when the count is even. *)
Lemma pair_up_from (m : nat) :
  forall (rest pre : list (list byte)) (k : nat),
    length rest = (2 * m)%nat -> length pre = (2 * k)%nat ->
    mapM (fun i =>
            let* lhs := py.index (pre ++ rest) i in
            let* rhs := py.index (pre ++ rest) (i + 1) in
            Ok (merkle.double_sha256 (lhs ++ rhs)))
         (map (fun j => 0 + 2 * Z.of_nat j) (seq k m))
    = Ok (spec.pairs rest).
Proof.
  induction m as [|m IH]; intros rest pre k Hrest Hpre.
  - destruct rest; [reflexivity | discriminate].
  - destruct rest as [|a [|b rest]]; try (simpl in Hrest; lia).
    cbn [seq map mapM spec.pairs].
    replace (0 + 2 * Z.of_nat k) with (Z.of_nat (length pre)) by lia.
    rewrite (index_nth _ (length pre) a)
      by (rewrite nth_error_app2, Nat.sub_diag by lia; reflexivity).
    cbn [bind].
    replace (Z.of_nat (length pre) + 1) with (Z.of_nat (S (length pre))) by lia.
    rewrite (index_nth _ (S (length pre)) b)
      by (rewrite nth_error_app2 by lia;
          replace (S (length pre) - length pre)%nat with 1%nat by lia; reflexivity).
    cbn [bind].
    replace (pre ++ a :: b :: rest) with ((pre ++ [a; b]) ++ rest)
      by (rewrite <- app_assoc; reflexivity).
    rewrite (IH rest (pre ++ [a; b]) (S k)).
    + reflexivity.
    + simpl in Hrest. lia.
    + rewrite length_app. simpl. lia.
Qed.

Lemma pair_up_pairs (hashes : list (list byte)) (m : nat) :
  length hashes = (2 * m)%nat -> merkle.pair_up hashes = Ok (spec.pairs hashes).
Proof.
  intros H. unfold merkle.pair_up, py.range_step.
  replace (Z.to_nat ((Z.of_nat (length hashes) - 0 + 2 - 1) / 2)) with m.
  - exact (pair_up_from m hashes [] 0 H eq_refl).
  - rewrite H. replace (Z.of_nat (2 * m) - 0 + 2 - 1) with (1 + Z.of_nat m * 2) by lia.
    rewrite Z.div_add by lia. change (1 / 2) with 0. lia.
Qed.

Lemma length_pairs (m : nat) :
  forall l : list (list byte), length l = (2 * m)%nat -> length (spec.pairs l) = m.
Proof.
  induction m as [|m IH]; intros l H.
  - destruct l; [reflexivity | discriminate].
  - destruct l as [|a [|b l]]; try (simpl in H; lia).
    cbn [spec.pairs length]. f_equal. apply IH. simpl in H. lia.
Qed.

Lemma length_padded (hashes : list (list byte)) :
  exists m, length (spec.padded hashes) = (2 * m)%nat /\ m = Nat.div2 (S (length hashes)).
Proof.
  unfold spec.padded. destruct (Nat.even (length hashes)) eqn:E.
  - apply Nat.even_spec in E. destruct E as [m Hm]. exists m. split; [exact Hm|].
    rewrite Hm. clear. induction m as [|m IH]; [reflexivity|].
    replace (2 * S m)%nat with (S (S (2 * m))) by lia. cbn [Nat.div2].
    f_equal. exact IH.
  - assert (Ho : Nat.odd (length hashes) = true)
      by (rewrite <- Nat.negb_even, E; reflexivity).
    apply Nat.odd_spec in Ho. destruct Ho as [m Hm]. exists (S m).
    rewrite length_app. cbn [length]. split; [lia|].
    rewrite Hm. replace (S (2 * m + 1)) with (2 * S m)%nat by lia.
    clear. induction (S m) as [|k IH]; [reflexivity|].
    replace (2 * S k)%nat with (S (S (2 * k))) by lia. cbn [Nat.div2].
    f_equal. exact IH.
Qed.

Lemma next_level_padded (hashes : list (list byte)) :
  hashes <> [] -> merkle.next_level hashes = Ok (spec.pairs (spec.padded hashes)).
Proof.
  intros Hne. unfold merkle.next_level, merkle.duplicate_last.
  destruct (length_padded hashes) as (m & Hm & _).
  assert (Heven : (Z.of_nat (length hashes) mod 2 =? 0) = Nat.even (length hashes)).
  { destruct (Nat.even (length hashes)) eqn:E.
    - apply Nat.even_spec in E. destruct E as [k Hk]. rewrite Hk.
      apply Z.eqb_eq. rewrite Nat2Z.inj_mul, Z.mul_comm. apply Z.mod_mul. lia.
    - assert (Ho : Nat.odd (length hashes) = true)
        by (rewrite <- Nat.negb_even, E; reflexivity).
      apply Nat.odd_spec in Ho. destruct Ho as [k Hk]. rewrite Hk.
      apply Z.eqb_neq. replace (Z.of_nat (2 * k + 1)) with (1 + Z.of_nat k * 2) by lia.
      rewrite Z.mod_add by lia. discriminate. }
  rewrite Heven. unfold spec.padded in *.
  destruct (Nat.even (length hashes)); cbn [negb].
  - cbn [bind]. exact (pair_up_pairs _ m Hm).
  - rewrite (index_last hashes [] Hne). cbn [bind]. exact (pair_up_pairs _ m Hm).
Qed.

Lemma merkle_while_stop (hashes : list (list byte)) :
  (length hashes <= 1)%nat -> merkle.merkle_while hashes = Ok hashes.
Proof.
  intros H. rewrite merkle.merkle_while_equation_1.
  destruct (merkle.inspect (1 <? Z.of_nat (length hashes))) as [b e].
  destruct b; simp merkle_while; [|reflexivity].
  pose proof (proj1 (Z.ltb_lt _ _) e). lia.
Qed.

Lemma merkle_while_next (hashes : list (list byte)) :
  (1 < length hashes)%nat ->
  merkle.merkle_while hashes =
  match merkle.next_level hashes with
  | Ok new_hashes => merkle.merkle_while new_hashes
  | Raise e => Raise e
  end.
Proof.
  intros H. rewrite merkle.merkle_while_equation_1.
  destruct (merkle.inspect (1 <? Z.of_nat (length hashes))) as [b e].
  destruct b; simp merkle_while.
  - destruct (merkle.inspect (merkle.next_level hashes)) as [r e'].
    destruct r; simp merkle_while; rewrite e';
      [rewrite merkle.merkle_while_equation_1|]; reflexivity.
  - pose proof (proj1 (Z.ltb_ge _ _) e). lia.
Qed.

(** One turn of the loop on two hashes or more. *)
Lemma merkle_while_level (hashes : list (list byte)) :
  (1 < length hashes)%nat ->
  merkle.merkle_while hashes = merkle.merkle_while (spec.pairs (spec.padded hashes)).
Proof.
  intros H. rewrite (merkle_while_next _ H), next_level_padded; [reflexivity|].
  intros ->. simpl in H. lia.
Qed.

Lemma div2_bounds (n : nat) :
  (1 < n)%nat -> (1 <= Nat.div2 (S n) < n)%nat.
Proof.
  intros H. pose proof (Nat.div2_odd (S n)) as Ho.
  destruct (Nat.odd (S n)); cbn [Nat.b2n] in Ho; lia.
Qed.

Lemma length_next_level (hashes : list (list byte)) :
  length (spec.pairs (spec.padded hashes)) = Nat.div2 (S (length hashes)).
Proof.
  destruct (length_padded hashes) as (m & Hm & ->). apply length_pairs. exact Hm.
Qed.

(** The loop ends on exactly one hash, whatever the number of hashes it
    starts from. *)
Lemma merkle_while_singleton (n : nat) :
  forall hashes : list (list byte),
    length hashes = n -> hashes <> [] ->
    exists root, merkle.merkle_while hashes = Ok [root].
Proof.
  induction n as [n IH] using lt_wf_ind. intros hashes Hlen Hne.
  destruct (le_lt_dec n 1) as [Hle|Hgt].
  - destruct hashes as [|root [|? ?]]; [contradiction | | simpl in Hlen; lia].
    exists root. apply merkle_while_stop. simpl. lia.
  - rewrite merkle_while_level by lia.
    pose proof (length_next_level hashes) as Hl.
    pose proof (div2_bounds (length hashes) ltac:(lia)) as Hb.
    apply (IH (Nat.div2 (S (length hashes)))); [lia | exact Hl |].
    intros Hnil. rewrite Hnil in Hl. cbn [length] in Hl. lia.
Qed.

Lemma Forall_pairs_digest (m : nat) :
  forall l : list (list byte),
    length l = (2 * m)%nat -> Forall (fun h => length h = 32%nat) (spec.pairs l).
Proof.
  induction m as [|m IH]; intros l H.
  - destruct l; [constructor | discriminate].
  - destruct l as [|a [|b l]]; try (simpl in H; lia).
    cbn [spec.pairs]. constructor.
    + unfold merkle.double_sha256. apply length_sha256.
    + apply IH. simpl in H. lia.
Qed.

Lemma merkle_while_digest (n : nat) :
  forall (hashes : list (list byte)) (root : list byte),
    length hashes = n ->
    Forall (fun h => length h = 32%nat) hashes ->
    merkle.merkle_while hashes = Ok [root] -> length root = 32%nat.
Proof.
  induction n as [n IH] using lt_wf_ind. intros hashes root Hlen Hall Hw.
  destruct (le_lt_dec n 1) as [Hle|Hgt].
  - rewrite merkle_while_stop in Hw by lia. apply Ok_inj in Hw. subst hashes.
    apply Forall_inv in Hall. exact Hall.
  - rewrite merkle_while_level in Hw by lia.
    pose proof (length_next_level hashes) as Hl.
    pose proof (div2_bounds (length hashes) ltac:(lia)) as Hb.
    destruct (length_padded hashes) as (m & Hm & _).
    apply (IH (Nat.div2 (S (length hashes))) ltac:(lia) _ root Hl); [|exact Hw].
    apply (Forall_pairs_digest m). exact Hm.
Qed.

(** The shape of [merkle_root] on a list that is not empty. *)
Lemma merkle_root_nonempty (tx_hashes : list string) :
  tx_hashes <> [] ->
  merkle.merkle_root tx_hashes =
  let* hashes := mapM py.fromhex tx_hashes in
  let* hashes := merkle.merkle_while hashes in
  let* root := py.index hashes 0 in
  Ok (py.hex (rev root)).
Proof.
  intros Hne. unfold merkle.merkle_root.
  destruct tx_hashes; [contradiction | reflexivity].
Qed.

(** [merkle_root] fails on ill-formed hexadecimal text only: when every
    hash of a list that is not empty decodes, the loop ends on one root and
    the call returns that root reversed, in hexadecimal; no index is out of
    range. From two hashes on the root is a digest, so the result has 64
    digits. An error of [bytes.fromhex] is passed on. *)
Theorem merkle_root_returns (tx_hashes : list string) :
  tx_hashes <> [] ->
  match mapM py.fromhex tx_hashes with
  | Ok hashes =>
      exists root,
        merkle.merkle_while hashes = Ok [root] /\
        merkle.merkle_root tx_hashes = Ok (py.hex (rev root)) /\
        ((2 <= length tx_hashes)%nat ->
         length root = 32%nat /\ String.length (py.hex (rev root)) = 64%nat)
  | Raise e => merkle.merkle_root tx_hashes = Raise e
  end.
Proof.
  intros Hne. rewrite (merkle_root_nonempty _ Hne).
  destruct (mapM py.fromhex tx_hashes) as [hashes|e] eqn:E; [|reflexivity].
  pose proof (mapM_length _ _ _ E) as Hlen.
  assert (Hne' : hashes <> []).
  { intros ->. destruct tx_hashes; [contradiction | discriminate]. }
  destruct (merkle_while_singleton _ hashes eq_refl Hne') as [root Hroot].
  exists root. split; [exact Hroot|]. cbn [bind]. rewrite Hroot. cbn [bind].
  split; [reflexivity|].
  intros H2.
  assert (Hr : length root = 32%nat).
  { rewrite merkle_while_level in Hroot by lia.
    destruct (length_padded hashes) as (m & Hm & _).
    apply (merkle_while_digest _ _ root eq_refl (Forall_pairs_digest m _ Hm) Hroot). }
  split; [exact Hr|]. rewrite length_hex, length_rev, Hr. reflexivity.
Qed.

Lemma merkle_root_returns_witness :
  exists root,
    merkle.merkle_root constants.TRANSACTIONS = Ok (py.hex (rev root)) /\
    length root = 32%nat.
Proof.
  pose proof (merkle_root_returns constants.TRANSACTIONS ltac:(discriminate)) as H.
  destruct (mapM py.fromhex constants.TRANSACTIONS) as [hashes|e] eqn:E.
  - destruct H as (root & _ & Hr & Hlen). exists root. split; [exact Hr|].
    apply Hlen. simpl. lia.
  - revert E. vm_compute. discriminate.
Defined.

(** On a single hash [merkle_root] hashes nothing: it returns the bytes of
    the hash in reverse order, so the root of one transaction id is that id
    byte-reversed, and taking the root of the result gives the first hash
    back (in lower case). *)
Theorem merkle_root_single (h : string) (bs : list byte) :
  py.fromhex h = Ok bs ->
  merkle.merkle_root [h] = Ok (py.hex (rev bs)) /\
  merkle.merkle_root [py.hex (rev bs)] = Ok (py.hex bs).
Proof.
  intros H.
  assert (Hone : forall h' bs', py.fromhex h' = Ok bs' ->
                   merkle.merkle_root [h'] = Ok (py.hex (rev bs'))).
  { intros h' bs' H'. rewrite merkle_root_nonempty by discriminate.
    cbn [mapM]. rewrite H'. cbn [bind].
    rewrite merkle_while_stop by (simpl; lia). reflexivity. }
  split; [exact (Hone _ _ H)|].
  rewrite (Hone _ _ (fromhex_hex (rev bs))), rev_involutive. reflexivity.
Qed.

Lemma merkle_root_single_witness :
  merkle.merkle_root ["00ff10"%string] = Ok "10ff00"%string /\
  merkle.merkle_root ["10ff00"%string] = Ok "00ff10"%string.
Proof.
  assert (H : py.fromhex "00ff10"%string = Ok (map py.byte_of_Z [0; 255; 16]))
    by reflexivity.
  exact (merkle_root_single _ _ H).
Defined.

(** Appending a second copy of the last hash to a list of odd length (three
    hashes or more) does not change the root: the loop makes that copy
    itself. Both calls also fail alike on ill-formed text. *)
Theorem merkle_root_duplicate_last (tx_hashes : list string) (x : string) :
  tx_hashes <> [] ->
  Nat.even (length tx_hashes) = true ->
  merkle.merkle_root (tx_hashes ++ [x]) = merkle.merkle_root (tx_hashes ++ [x; x]).
Proof.
  intros Hne Heven.
  rewrite !merkle_root_nonempty by (intros H; apply app_eq_nil in H as [_ H]; discriminate).
  rewrite !mapM_app.
  destruct (mapM py.fromhex tx_hashes) as [hashes|e] eqn:E; [|reflexivity].
  pose proof (mapM_length _ _ _ E) as Hlen.
  cbn [bind mapM].
  destruct (py.fromhex x) as [bx|e]; [|reflexivity]. cbn [bind].
  assert (Hl : (2 <= length hashes)%nat).
  { rewrite Hlen. destruct tx_hashes as [|a [|b l]]; [contradiction | discriminate | simpl; lia]. }
  rewrite (merkle_while_level (hashes ++ [bx])) by (rewrite length_app; simpl; lia).
  rewrite (merkle_while_level (hashes ++ [bx; bx])) by (rewrite length_app; simpl; lia).
  assert (Hpad : spec.padded (hashes ++ [bx]) = spec.padded (hashes ++ [bx; bx])).
  { unfold spec.padded. rewrite !length_app. cbn [length].
    rewrite Hlen.
    replace (length tx_hashes + 1)%nat with (S (length tx_hashes)) by lia.
    replace (length tx_hashes + 2)%nat with (S (S (length tx_hashes))) by lia.
    rewrite Nat.even_succ_succ, Nat.even_succ, <- Nat.negb_even, Heven. cbn [negb].
    rewrite last_last, <- app_assoc. reflexivity. }
  rewrite Hpad. reflexivity.
Qed.

Lemma merkle_root_duplicate_last_witness :
  merkle.merkle_root (["aa"%string; "bb"%string] ++ ["cc"%string]) =
  merkle.merkle_root (["aa"%string; "bb"%string] ++ ["cc"%string; "cc"%string]).
Proof.
  apply merkle_root_duplicate_last; [discriminate | reflexivity].
Defined.

(** ** [serialize_block_header] and [compute_hash] *)

Lemma struct_pack_u32_returns (v : Z) : returns (py.struct_pack_u32 v) <-> u32 v.
Proof.
  unfold u32. split.
  - intros [bs H]. destruct (Z_le_dec 0 v); [destruct (Z_lt_dec v (2 ^ 32))|];
      [lia | |]; rewrite struct_pack_u32_Raise in H by lia; discriminate.
  - intros H. rewrite struct_pack_u32_Ok by exact H. eexists; reflexivity.
Qed.

(** What [serialize_block_header] returns when all six fields are accepted. *)
Lemma serialize_block_header_Ok (version : Z) (prev_hash merkle_root : string)
    (timestamp bits nonce : Z) (p m : list byte) :
  u32 version -> py.fromhex prev_hash = Ok p -> py.fromhex merkle_root = Ok m ->
  u32 timestamp -> u32 bits -> u32 nonce ->
  block.serialize_block_header version prev_hash merkle_root timestamp bits nonce =
  Ok (((((py.le_bytes 4 version ++ rev p) ++ rev m) ++ py.le_bytes 4 timestamp)
         ++ py.le_bytes 4 bits) ++ py.le_bytes 4 nonce).
Proof.
  intros Hv Hp Hm Ht Hb Hn. unfold block.serialize_block_header.
  rewrite (struct_pack_u32_Ok _ Hv), Hp, Hm, (struct_pack_u32_Ok _ Ht),
    (struct_pack_u32_Ok _ Hb), (struct_pack_u32_Ok _ Hn).
  reflexivity.
Qed.

(** [serialize_block_header] returns exactly when the four integers fit 32
    unsigned bits and both hashes are hexadecimal text; it does not check the
    size of the hashes, so the header has 16 bytes plus the bytes of the two
    hashes: 80 bytes when, and only when, these two together have 64.
    An integer out of range makes [struct.pack] raise. *)
Theorem serialize_block_header_returns (version : Z) (prev_hash merkle_root : string)
    (timestamp bits nonce : Z) :
  (returns (block.serialize_block_header version prev_hash merkle_root timestamp bits nonce)
   <-> u32 version /\ returns (py.fromhex prev_hash) /\ returns (py.fromhex merkle_root) /\
       u32 timestamp /\ u32 bits /\ u32 nonce) /\
  (forall header,
      block.serialize_block_header version prev_hash merkle_root timestamp bits nonce
      = Ok header ->
      exists p m, py.fromhex prev_hash = Ok p /\ py.fromhex merkle_root = Ok m /\
                  length header = (16 + length p + length m)%nat) /\
  (~ u32 version ->
   block.serialize_block_header version prev_hash merkle_root timestamp bits nonce
   = Raise StructError).
Proof.
  assert (Hinv : forall header,
             block.serialize_block_header version prev_hash merkle_root timestamp bits nonce
             = Ok header ->
             exists p m, py.fromhex prev_hash = Ok p /\ py.fromhex merkle_root = Ok m /\
                         u32 version /\ u32 timestamp /\ u32 bits /\ u32 nonce /\
                         length header = (16 + length p + length m)%nat).
  { intros header H. unfold block.serialize_block_header in H.
    bind_inv H. rename E into Ev. rename v into bv.
    bind_inv H. rename E into Ep. rename v into p.
    bind_inv H. rename E into Em. rename v into m.
    bind_inv H. rename E into Et. rename v into bt.
    bind_inv H. rename E into Eb. rename v into bb.
    bind_inv H. rename E into En. rename v into bn.
    apply Ok_inj in H. subst header.
    assert (Hu : forall x bs, py.struct_pack_u32 x = Ok bs -> u32 x /\ length bs = 4%nat).
    { intros x bs Hx. assert (u32 x) as Hux by (apply struct_pack_u32_returns; eexists; exact Hx).
      split; [exact Hux|]. rewrite struct_pack_u32_Ok in Hx by exact Hux.
      apply Ok_inj in Hx. subst bs. apply length_le_bytes. }
    destruct (Hu _ _ Ev) as [? Lv]. destruct (Hu _ _ Et) as [? Lt].
    destruct (Hu _ _ Eb) as [? Lb]. destruct (Hu _ _ En) as [? Ln].
    exists p, m. repeat (split; [assumption|]).
    rewrite !length_app, !length_rev, Lv, Lt, Lb, Ln. simpl. lia. }
  split; [split|split].
  - intros [header H]. destruct (Hinv _ H) as (p & m & Hp & Hm & Hv & Ht & Hb & Hn & _).
    split; [exact Hv|]. split; [eexists; exact Hp|]. split; [eexists; exact Hm|]. auto.
  - intros (Hv & [p Hp] & [m Hm] & Ht & Hb & Hn).
    rewrite (serialize_block_header_Ok _ _ _ _ _ _ p m) by assumption.
    eexists; reflexivity.
  - intros header H. destruct (Hinv _ H) as (p & m & Hp & Hm & _ & _ & _ & _ & Hl).
    exists p, m. auto.
  - intros Hv. unfold block.serialize_block_header.
    rewrite (struct_pack_u32_Raise _ Hv). reflexivity.
Qed.

Lemma serialize_block_header_returns_witness :
  (exists header,
      block.serialize_block_header 1 "00ff" "ab" 2 3 4 = Ok header /\
      length header = 19%nat) /\
  block.serialize_block_header (2 ^ 32) "00ff" "ab" 2 3 4 = Raise StructError.
Proof.
  pose proof (serialize_block_header_returns 1 "00ff" "ab" 2 3 4) as (Hiff & Hlen & _).
  pose proof (serialize_block_header_returns (2 ^ 32) "00ff" "ab" 2 3 4) as (_ & _ & Hraise).
  split.
  - destruct (proj2 Hiff) as [header Hh].
    { unfold u32. repeat split; try lia; eexists; reflexivity. }
    exists header. split; [exact Hh|].
    destruct (Hlen _ Hh) as (p & m & Hp & Hm & Hl).
    vm_compute in Hp, Hm. apply Ok_inj in Hp. apply Ok_inj in Hm. subst p m. exact Hl.
  - apply Hraise. unfold u32. lia.
Defined.

(** A block hash [compute_hash] returns is a text of 64 hexadecimal digits:
    the double SHA-256 of the serialized header in reverse byte order, a
    number in [0, 2^256) when parsed in base 16. [compute_hash] fails exactly
    as [serialize_block_header] does. *)
Theorem compute_hash_shape (hf : block.header_fields) :
  match block.serialize_block_header (block.hf_version hf) (block.hf_previousblockhash hf)
          (block.hf_merkleroot hf) (block.hf_timestamp hf) (block.hf_bits hf)
          (block.hf_nonce hf) with
  | Ok serialized =>
      exists block_hash v,
        block.compute_hash hf = Ok block_hash /\
        String.length block_hash = 64%nat /\
        py.fromhex block_hash = Ok (rev (block.double_sha256 serialized)) /\
        py.int16 block_hash = Ok v /\ 0 <= v < 2 ^ 256
  | Raise e => block.compute_hash hf = Raise e
  end.
Proof.
  unfold block.compute_hash.
  destruct (block.serialize_block_header _ _ _ _ _ _) as [serialized|e]; [|reflexivity].
  cbn [bind].
  set (digest := rev (block.double_sha256 serialized)).
  assert (Hlen : length digest = 32%nat).
  { unfold digest, block.double_sha256. rewrite length_rev. apply length_sha256. }
  exists (py.hex digest), (spec.be_int digest).
  split; [reflexivity|].
  split; [rewrite length_hex, Hlen; reflexivity|].
  split; [apply fromhex_hex|].
  split.
  - apply int16_hex. intros Hnil. rewrite Hnil in Hlen. discriminate.
  - pose proof (be_int_range digest) as Hr. rewrite Hlen in Hr. exact Hr.
Qed.

(** ** Valid orderings are kept *)

Lemma drop_invalid_id (n : Z) (arr : list Z) :
  forall earlier,
    NoDup arr -> (forall x, x ∈ arr -> spec.in_range n x /\ x ∉ earlier) ->
    spec.drop_invalid n earlier arr = arr.
Proof.
  induction arr as [|y arr IH]; intros earlier Hnd Hin; [reflexivity|].
  cbn [spec.drop_invalid].
  apply NoDup_cons in Hnd as [Hy Hnd].
  destruct (Hin y ltac:(left)) as [Hr Hne].
  assert (Hc : (0 <=? y) && (y <? n) && negb (existsb (Z.eqb y) earlier) = true).
  { apply andb_true_iff. split; [apply in_range_test; exact Hr|].
    apply negb_true_iff. destruct (existsb (Z.eqb y) earlier) eqn:E; [|reflexivity].
    apply existsb_eqb_elem in E. contradiction. }
  rewrite Hc. f_equal. apply IH; [exact Hnd|].
  intros x Hx. destruct (Hin x ltac:(right; exact Hx)) as [Hxr Hxe].
  split; [exact Hxr|]. rewrite elem_of_cons. intros [->|H]; contradiction.
Qed.

Lemma filter_none {A : Type} (f : A -> bool) (l : list A) :
  (forall x, In x l -> f x = false) -> List.filter f l = [].
Proof.
  induction l as [|x l IH]; intros H; [reflexivity|]. simpl.
  rewrite (H x (or_introl eq_refl)). apply IH. intros y Hy. apply H. right. exact Hy.
Qed.

Lemma repair_id (n : Z) (arr : list Z) :
  arr ≡ₚ py.range n -> spec.repair n arr = arr.
Proof.
  intros Hp. unfold spec.repair.
  assert (Hnd : NoDup arr) by (rewrite Hp; apply NoDup_range).
  rewrite (drop_invalid_id n arr []).
  - assert (Hm : spec.missing n arr = []).
    { unfold spec.missing. apply filter_none. intros x Hx.
      apply negb_false_iff, existsb_eqb_elem. rewrite Hp.
      apply list_elem_of_In. exact Hx. }
    rewrite Hm, app_nil_r. reflexivity.
  - exact Hnd.
  - intros x Hx. split; [|apply not_elem_of_nil].
    apply elem_of_range. rewrite <- Hp. exact Hx.
Qed.

Lemma clamp_id (n : Z) (arr : list Z) :
  (forall x, x ∈ arr -> spec.in_range n x) ->
  map (simple_bitcoin_env.clamp n) arr = arr.
Proof.
  induction arr as [|x arr IH]; intros H; [reflexivity|]. simpl.
  rewrite IH by (intros y Hy; apply H; right; exact Hy). f_equal.
  destruct (H x ltac:(left)) as [H0 H1]. unfold simple_bitcoin_env.clamp. lia.
Qed.

(** An ordering that already is a permutation of [range(n)] goes through
    the repair unchanged, in [fix_permutation] and in [step] (where the
    clamping has nothing to move); so repairing twice is repairing once. *)
Theorem fix_permutation_valid (n : Z) (arr : list Z) :
  (arr ≡ₚ py.range n ->
   simple_bitcoin_env.fix_permutation arr n = arr /\
   simple_bitcoin_env.step_tx_order n arr = arr) /\
  simple_bitcoin_env.fix_permutation (simple_bitcoin_env.fix_permutation arr n) n
  = simple_bitcoin_env.fix_permutation arr n /\
  simple_bitcoin_env.step_tx_order n (simple_bitcoin_env.step_tx_order n arr)
  = simple_bitcoin_env.step_tx_order n arr.
Proof.
  assert (Hid : forall l, l ≡ₚ py.range n ->
                  simple_bitcoin_env.fix_permutation l n = l /\
                  simple_bitcoin_env.step_tx_order n l = l).
  { intros l Hp. unfold simple_bitcoin_env.step_tx_order.
    rewrite clamp_id.
    - rewrite fix_permutation_repair, repair_id by exact Hp. auto.
    - intros x Hx. apply elem_of_range. rewrite <- Hp. exact Hx. }
  split; [exact (Hid arr)|]. split.
  - apply Hid. rewrite fix_permutation_repair. apply repair_Permutation.
  - apply Hid. unfold simple_bitcoin_env.step_tx_order.
    rewrite fix_permutation_repair. apply repair_Permutation.
Qed.

Lemma fix_permutation_valid_witness :
  simple_bitcoin_env.fix_permutation [2; 0; 1] 3 = [2; 0; 1] /\
  simple_bitcoin_env.step_tx_order 3 [2; 0; 1] = [2; 0; 1].
Proof.
  apply (proj1 (fix_permutation_valid 3 [2; 0; 1])).
  change (py.range 3) with [0; 1; 2].
  apply NoDup_Permutation.
  - repeat constructor; rewrite ?elem_of_cons, ?elem_of_nil; lia.
  - repeat constructor; rewrite ?elem_of_cons, ?elem_of_nil; lia.
  - intros x. rewrite !elem_of_cons, !elem_of_nil. lia.
Defined.

(** ** The environment between calls *)

Section Episode.

Import simple_bitcoin_env.

Lemma zero_hash_decodes :
  py.fromhex (py.str_repeat "00" 32) = Ok (repeat Byte.x00 32).
Proof. reflexivity. Qed.

Lemma initial_transactions_decode :
  Forall (fun t => returns (py.fromhex t)) constants.TRANSACTIONS.
Proof. repeat constructor; eexists; vm_compute; reflexivity. Qed.

Lemma generated_transactions_decode (urandom : list (list byte)) :
  Forall (fun t => returns (py.fromhex t)) (generate_transactions urandom).
Proof.
  unfold generate_transactions. induction urandom as [|u l IH]; constructor.
  - exists u. apply fromhex_hex.
  - exact IH.
Qed.

Lemma init_well_formed (now : Z) (self : SimpleBitcoinEnv) :
  init now = Ok self -> spec.well_formed self.
Proof.
  unfold init. intros H. bind_inv H. apply Ok_inj in H. subst self.
  constructor; cbn [num_txs transactions previousblockhash block_height version bits
                      target current_timestamp base_timestamp].
  - reflexivity.
  - exact initial_transactions_decode.
  - exists (repeat Byte.x00 32). split; reflexivity.
  - lia.
  - reflexivity.
  - reflexivity.
  - exact E.
  - reflexivity.
Qed.

Lemma reset_well_formed (self self' : SimpleBitcoinEnv) (obs : Obs) :
  spec.well_formed self -> reset self = Ok (self', obs) -> spec.well_formed self'.
Proof.
  intros [] H. unfold reset in H. bind_inv H. apply Ok_inj in H.
  injection H as <- _.
  constructor; cbn [num_txs transactions previousblockhash block_height version bits
                      target current_timestamp base_timestamp];
    try assumption; try reflexivity; try lia.
  exists (repeat Byte.x00 32). split; reflexivity.
Qed.

Lemma step_well_formed (self self' : SimpleBitcoinEnv) action urandom r :
  spec.well_formed self -> step self action urandom = Ok (self', r) ->
  spec.well_formed self'.
Proof.
  intros [] H.
  apply step_inv in H
    as (tx_order & cb & full & hf & block_hash & h & _ & Hhash & _ & _ & _
          & _ & Hv & Hb & Hbase & Ht & _ & Hc & _ & Hfound & Hmissed).
  destruct (compute_hash_inv _ _ Hhash) as (digest & Hlen & Hhex & _ & _).
  destruct (Z_lt_le_dec h (target self)) as [Hlt|Hge].
  - destruct (Hfound Hlt) as (_ & Hp & Hh & Htx & Hn).
    constructor.
    + rewrite Hn, Htx. reflexivity.
    + rewrite Htx. apply generated_transactions_decode.
    + exists digest. rewrite Hp, Hhex. split; [apply fromhex_hex | exact Hlen].
    + lia.
    + congruence.
    + congruence.
    + congruence.
    + congruence.
  - destruct (Hmissed Hge) as (_ & Hp & Hh & Htx & Hn).
    constructor.
    + congruence.
    + congruence.
    + rewrite Hp. assumption.
    + lia.
    + congruence.
    + congruence.
    + congruence.
    + congruence.
Qed.

(** Every state an episode reaches is well formed: [num_txs] is the size of
    the pool, every transaction of the pool and [previousblockhash] decode
    (the latter to 32 bytes), the height is at least 1, [version], [bits]
    and [target] are those of [__init__], and [current_timestamp] is
    [base_timestamp]. *)
Theorem reachable_well_formed (self : SimpleBitcoinEnv) :
  reachable self -> spec.well_formed self.
Proof.
  induction 1 as [now self Hinit | self action urandom self' r _ IH Hstep
                 | self self' obs _ IH Hreset].
  - exact (init_well_formed _ _ Hinit).
  - exact (step_well_formed _ _ _ _ _ IH Hstep).
  - exact (reset_well_formed _ _ _ IH Hreset).
Qed.

Lemma reachable_well_formed_witness : spec.well_formed examples.env0.
Proof. exact (reachable_well_formed _ env0_reachable). Defined.

(** [reset] never fails. It puts the height back to 1, the previous hash to
    zero, the nonce to 0 and the ordering to the identity, but keeps the
    transaction pool (after a found block, the generated one, not the initial
    one) with [version], [bits], [target] and [base_timestamp]; a second
    [reset] changes nothing. *)
Theorem reset_returns (self : SimpleBitcoinEnv) :
  exists self' obs,
    reset self = Ok (self', obs) /\
    block_height self' = 1 /\
    previousblockhash self' = py.str_repeat "00" 32 /\
    current_nonce self' = 0 /\
    current_timestamp self' = base_timestamp self /\
    current_tx_order self' = py.range (num_txs self) /\
    transactions self' = transactions self /\
    num_txs self' = num_txs self /\
    version self' = version self /\
    bits self' = bits self /\
    target self' = target self /\
    base_timestamp self' = base_timestamp self /\
    obs_previousblockhash obs = repeat Byte.x00 32 /\
    obs_tx_order obs = py.range (num_txs self) /\
    reset self' = Ok (self', obs).
Proof.
  unfold reset, _get_obs. cbn [previousblockhash].
  rewrite zero_hash_decodes. cbn [bind].
  eexists _, _. split; [reflexivity|]. cbn.
  repeat (split; [reflexivity|]). reflexivity.
Qed.

End Episode.

(** ** When [step] returns *)

Section StepReturns.

Import simple_bitcoin_env.

Lemma create_coinbase_tx_Raise (h e : Z) (msg address : string) :
  0 <= h < 2 ^ 32 -> ~ u32 e ->
  block.create_coinbase_tx h e msg address = Raise StructError.
Proof.
  intros Hh He. unfold block.create_coinbase_tx.
  rewrite (struct_pack_u32_Ok 1) by lia. cbn [bind].
  pose proof (length_encode_script_num h Hh) as Hlen.
  unfold py.bytes_of_int.
  assert (Hb : (0 <=? Z.of_nat (length (block.encode_script_num h)))
               && (Z.of_nat (length (block.encode_script_num h)) <? 256) = true).
  { apply andb_true_iff. split; [apply Z.leb_le | apply Z.ltb_lt]; lia. }
  rewrite Hb. cbn [bind].
  rewrite (struct_pack_u32_Raise e He). reflexivity.
Qed.

Lemma merkle_root_Ok (tx_hashes : list string) (hashes : list (list byte)) :
  tx_hashes <> [] -> mapM py.fromhex tx_hashes = Ok hashes ->
  exists root, merkle.merkle_root tx_hashes = Ok (py.hex (rev root)).
Proof.
  intros Hne E. rewrite (merkle_root_nonempty _ Hne), E. cbn [bind].
  pose proof (mapM_length _ _ _ E) as Hlen.
  assert (Hne' : hashes <> []).
  { intros ->. destruct tx_hashes; [contradiction | discriminate]. }
  destruct (merkle_while_singleton _ hashes eq_refl Hne') as [root Hroot].
  exists root. rewrite Hroot. reflexivity.
Qed.

(** Indexing the pool by indices in range gives transactions of the pool. *)
Lemma reorder_Ok (txs : list string) (order : list Z) :
  (forall i, i ∈ order -> 0 <= i < Z.of_nat (length txs)) ->
  exists reordered,
    mapM (py.index txs) order = Ok reordered /\
    Forall (fun t => In t txs) reordered.
Proof.
  induction order as [|i order IH]; intros H.
  - exists []. split; [reflexivity | constructor].
  - destruct IH as (ys & Hys & Hall); [intros j Hj; apply H; right; exact Hj|].
    destruct (H i ltac:(left)) as [H0 H1].
    destruct (nth_error txs (Z.to_nat i)) as [t|] eqn:Et.
    + exists (t :: ys). split.
      * cbn [mapM]. rewrite <- (Z2Nat.id i H0), (index_nth _ _ _ Et). cbn [bind].
        rewrite Hys. reflexivity.
      * constructor; [eapply nth_error_In; exact Et | exact Hall].
    + apply nth_error_None in Et. lia.
Qed.

Lemma mapM_fromhex_Ok (txs : list string) :
  Forall (fun t => returns (py.fromhex t)) txs ->
  exists hashes, mapM py.fromhex txs = Ok hashes.
Proof. intros H. exact (mapM_returns _ _ H). Qed.

Lemma step_tx_order_in_range (n : Z) (arr : list Z) (i : Z) :
  i ∈ step_tx_order n arr -> 0 <= i < n.
Proof.
  unfold step_tx_order. rewrite fix_permutation_repair, repair_Permutation.
  intros H. apply elem_of_range in H. exact H.
Qed.

(** The header assembled in a well-formed state. *)
Lemma assemble_Ok (self : SimpleBitcoinEnv) (action : Action) :
  spec.well_formed self ->
  block_height self < 2 ^ 32 ->
  u32 (a_extra_nonce action) ->
  exists coinbase_tx full_tx_list root,
    assemble self action =
    Ok (step_tx_order (num_txs self) (a_tx_order action), coinbase_tx, full_tx_list,
        {| block.hf_version := version self;
           block.hf_previousblockhash := previousblockhash self;
           block.hf_merkleroot := py.hex (rev root);
           block.hf_timestamp := base_timestamp self;
           block.hf_bits := bits self;
           block.hf_nonce := a_nonce action |}).
Proof.
  intros Hwf Hh He. destruct Hwf as [Hnum Htxs Hprev Hheight Hver Hbits Htgt Hts].
  destruct default_address_script as [script Hs].
  destruct (create_coinbase_tx_Ok (block_height self) (a_extra_nonce action)
              "Mining with RL" _ script ltac:(lia) He ltac:(simpl; lia) Hs)
    as (sig_len & _ & Hcb).
  unfold assemble. rewrite Z.ltb_irrefl, Hcb. cbn [bind].
  destruct (reorder_Ok (transactions self)
              (step_tx_order (num_txs self) (a_tx_order action)))
    as (reordered & Hre & Hin).
  { intros i Hi. apply step_tx_order_in_range in Hi. lia. }
  rewrite Hre. cbn [bind].
  match goal with
  | |- context [merkle.merkle_root (?cb :: reordered)] => set (coinbase_tx := cb)
  end.
  assert (Hcbdec : returns (py.fromhex coinbase_tx)) by (eexists; apply fromhex_hex).
  clearbody coinbase_tx. clear Hcb.
  assert (Hdec : Forall (fun t => returns (py.fromhex t)) (coinbase_tx :: reordered)).
  { constructor; [exact Hcbdec|].
    rewrite Forall_forall in *. intros t Ht.
    apply Htxs. apply list_elem_of_In. apply Hin. exact Ht. }
  destruct (mapM_fromhex_Ok _ Hdec) as [hashes Hhashes].
  destruct (merkle_root_Ok (coinbase_tx :: reordered) hashes
              (fun H => nil_cons (eq_sym H)) Hhashes) as [root Hroot].
  rewrite Hroot. cbn [bind].
  exists coinbase_tx, (coinbase_tx :: reordered), root. reflexivity.
Qed.

Lemma assemble_Raise (self : SimpleBitcoinEnv) (action : Action) :
  spec.well_formed self ->
  block_height self < 2 ^ 32 ->
  ~ u32 (a_extra_nonce action) ->
  assemble self action = Raise StructError.
Proof.
  intros Hwf Hh He. destruct Hwf as [Hnum Htxs Hprev Hheight Hver Hbits Htgt Hts].
  unfold assemble. rewrite Z.ltb_irrefl.
  rewrite create_coinbase_tx_Raise by (lia || exact He). reflexivity.
Qed.

(** In a well-formed state whose timestamp and height fit 32 bits (every
    state an episode reaches before the year 2106 and block 2^32), [step]
    returns exactly when the nonce and the extra nonce of the action are in
    [0, 2^32), whatever the ordering proposed: the repair keeps every index
    in the pool. Otherwise [struct.pack] raises, before the state is
    changed. *)
Theorem step_returns (self : SimpleBitcoinEnv) (action : Action)
    (urandom : list (list byte)) :
  spec.well_formed self ->
  u32 (base_timestamp self) ->
  block_height self < 2 ^ 32 ->
  (returns (step self action urandom)
   <-> u32 (a_nonce action) /\ u32 (a_extra_nonce action)) /\
  (~ (u32 (a_nonce action) /\ u32 (a_extra_nonce action)) ->
   step self action urandom = Raise StructError).
Proof.
  intros Hwf Hbase Hh.
  assert (Hraise : ~ (u32 (a_nonce action) /\ u32 (a_extra_nonce action)) ->
                   step self action urandom = Raise StructError).
  { intros Hno. unfold step.
    destruct (Z_le_dec 0 (a_extra_nonce action)) as [He0|He0];
      [destruct (Z_lt_dec (a_extra_nonce action) (2 ^ 32)) as [He1|He1]|];
      [| rewrite assemble_Raise by (assumption || (unfold u32; lia)); reflexivity
       | rewrite assemble_Raise by (assumption || (unfold u32; lia)); reflexivity].
    assert (He : u32 (a_extra_nonce action)) by (unfold u32; lia).
    assert (Hn : ~ u32 (a_nonce action)) by tauto.
    destruct (assemble_Ok self action Hwf Hh He) as (cb & full & root & Ha).
    rewrite Ha. cbn [bind block.hf_nonce block.hf_timestamp].
    unfold block.compute_hash, block.serialize_block_header.
    cbn [block.hf_version block.hf_previousblockhash block.hf_merkleroot
         block.hf_timestamp block.hf_bits block.hf_nonce].
    destruct Hwf as [Hnum Htxs Hprev Hheight Hver Hbits Htgt Hts]. destruct Hprev as (pb & Hpb & _).
    rewrite Hver, Hbits.
    rewrite (struct_pack_u32_Ok constants.VERSION) by (vm_compute; split; congruence).
    rewrite Hpb, fromhex_hex, (struct_pack_u32_Ok _ Hbase).
    rewrite (struct_pack_u32_Ok constants.BITS) by (vm_compute; split; congruence).
    rewrite (struct_pack_u32_Raise _ Hn). reflexivity. }
  split; [split|exact Hraise].
  - intros [res Hres].
    destruct (Z_le_dec 0 (a_nonce action)) as [Hn0|Hn0];
      [destruct (Z_lt_dec (a_nonce action) (2 ^ 32)) as [Hn1|Hn1]|];
      [| rewrite Hraise in Hres by (unfold u32; lia); discriminate
       | rewrite Hraise in Hres by (unfold u32; lia); discriminate].
    destruct (Z_le_dec 0 (a_extra_nonce action)) as [He0|He0];
      [destruct (Z_lt_dec (a_extra_nonce action) (2 ^ 32)) as [He1|He1]|];
      [| rewrite Hraise in Hres by (unfold u32; lia); discriminate
       | rewrite Hraise in Hres by (unfold u32; lia); discriminate].
    unfold u32. lia.
  - intros [Hn He].
    destruct (assemble_Ok self action Hwf Hh He) as (cb & full & root & Ha).
    unfold step. rewrite Ha. cbn [bind block.hf_nonce block.hf_timestamp].
    destruct Hwf as [Hnum Htxs Hprev Hheight Hver Hbits Htgt Hts]. destruct Hprev as (pb & Hpb & _).
    assert (Hser : exists serialized,
               block.serialize_block_header (version self) (previousblockhash self)
                 (py.hex (rev root)) (base_timestamp self) (bits self) (a_nonce action)
               = Ok serialized).
    { eexists. apply (serialize_block_header_Ok _ _ _ _ _ _ pb (rev root));
        try assumption; try apply fromhex_hex.
      - rewrite Hver. vm_compute. split; congruence.
      - rewrite Hbits. vm_compute. split; congruence. }
    destruct Hser as [serialized Hser].
    unfold block.compute_hash.
    cbn [block.hf_version block.hf_previousblockhash block.hf_merkleroot
         block.hf_timestamp block.hf_bits block.hf_nonce].
    rewrite Hser. cbn [bind].
    set (digest := rev (block.double_sha256 serialized)).
    assert (Hlen : length digest = 32%nat).
    { unfold digest, block.double_sha256. rewrite length_rev. apply length_sha256. }
    rewrite int16_hex by (intros Hnil; rewrite Hnil in Hlen; discriminate).
    cbn [bind].
    destruct (spec.be_int digest <? target self); unfold _get_obs;
      cbn [previousblockhash]; rewrite ?fromhex_hex, ?Hpb; cbn [bind];
      eexists; reflexivity.
Qed.

Lemma step_returns_witness :
  returns (step examples.env0 examples.hit examples.draws) /\
  step examples.env0
    {| a_nonce := 2 ^ 32; a_extra_nonce := 0; a_tx_order := [] |} [] = Raise StructError.
Proof.
  pose proof (init_well_formed _ _ env0_init) as Hwf.
  split.
  - apply (proj1 (step_returns examples.env0 examples.hit examples.draws Hwf
                    ltac:(vm_compute; split; congruence) ltac:(reflexivity))).
    split; vm_compute; split; congruence.
  - apply (proj2 (step_returns examples.env0 _ [] Hwf
                    ltac:(vm_compute; split; congruence) ltac:(reflexivity))).
    intros [[_ H] _]. revert H. vm_compute. congruence.
Defined.

End StepReturns.

(** ** What a step hashes and what it shows *)

Section StepContents.

Import simple_bitcoin_env.

Lemma assemble_parts self action tx_order coinbase_tx full_tx_list hf :
  assemble self action = Ok (tx_order, coinbase_tx, full_tx_list, hf) ->
  exists raw reordered,
    block.create_coinbase_tx (block_height self) (a_extra_nonce action)
      "Mining with RL" block.default_address = Ok raw /\
    coinbase_tx = block.txid raw /\
    mapM (py.index (transactions self)) tx_order = Ok reordered /\
    full_tx_list = coinbase_tx :: reordered.
Proof.
  unfold assemble. intros H. rewrite Z.ltb_irrefl in H.
  bind_inv H. rename v into raw. rename E into Eraw.
  bind_inv H. rename v into reordered. rename E into Ere.
  bind_inv H. apply Ok_inj in H.
  exists raw, reordered.
  assert (tx_order = step_tx_order (num_txs self) (a_tx_order action)
          /\ coinbase_tx = block.txid raw
          /\ full_tx_list = block.txid raw :: reordered) as (-> & -> & ->).
  { clear - H. generalize dependent (block.txid raw). intros t H.
    injection H as <- <- <- _. auto. }
  auto.
Qed.

Lemma mapM_index_map (txs : list string) (order : list Z) (reordered : list string) :
  mapM (py.index txs) order = Ok reordered ->
  reordered = map (fun i => nth (Z.to_nat (if i <? 0 then i + Z.of_nat (length txs) else i))
                             txs EmptyString) order.
Proof.
  revert reordered; induction order as [|i order IH]; intros reordered H.
  - apply Ok_inj in H. subst. reflexivity.
  - cbn [mapM] in H. bind_inv H. bind_inv H. apply Ok_inj in H. subst reordered.
    cbn [map]. f_equal; [|apply IH; exact E0].
    unfold py.index in E.
    destruct ((0 <=? _) && (_ <? _)); [|discriminate].
    destruct (nth_error txs _) as [t|] eqn:Et; [|discriminate].
    apply Ok_inj in E. subst t. symmetry. apply nth_error_nth. exact Et.
Qed.

Lemma map_nth_seq {A : Type} (l : list A) (d : A) :
  map (fun k => nth k l d) (seq 0 (length l)) = l.
Proof.
  induction l as [|a l IH]; [reflexivity|].
  cbn [length seq map nth]. f_equal.
  rewrite <- seq_shift, map_map. exact IH.
Qed.

Lemma map_nth_range (txs : list string) :
  map (fun i => nth (Z.to_nat (if i <? 0 then i + Z.of_nat (length txs) else i))
                 txs EmptyString)
      (py.range (Z.of_nat (length txs))) = txs.
Proof.
  unfold py.range. rewrite map_map, Nat2Z.id.
  etransitivity; [|apply (map_nth_seq txs EmptyString)].
  apply map_ext. intros k.
  destruct (Z.of_nat k <? 0) eqn:E; [apply Z.ltb_lt in E; lia|].
  rewrite Nat2Z.id. reflexivity.
Qed.

(** Whatever ordering the agent proposes, the block of a step holds the
    coinbase transaction id first and then every transaction of the pool
    exactly once; the Merkle root of that list is the one in the header, and
    the block hash is the hash of that header. *)
Theorem step_block_contents self action urandom self' r :
  spec.well_formed self ->
  step self action urandom = Ok (self', r) ->
  exists raw reordered,
    block.create_coinbase_tx (block_height self) (a_extra_nonce action)
      "Mining with RL" block.default_address = Ok raw /\
    info_coinbase_tx (info r) = block.txid raw /\
    info_full_tx_list (info r) = info_coinbase_tx (info r) :: reordered /\
    reordered ≡ₚ transactions self /\
    merkle.merkle_root (info_full_tx_list (info r))
    = Ok (block.hf_merkleroot (info_header_fields (info r))) /\
    block.compute_hash (info_header_fields (info r)) = Ok (info_block_hash (info r)).
Proof.
  intros Hwf Hstep.
  apply step_inv in Hstep
    as (tx_order & cb & full & hf & block_hash & h & Hasm & Hhash & _ & _ & Hinfo & _).
  rewrite Hinfo.
  cbn [info_coinbase_tx info_full_tx_list info_header_fields info_block_hash].
  destruct (assemble_parts _ _ _ _ _ _ Hasm) as (raw & reordered & Hraw & Hcb & Hre & Hfull).
  destruct (assemble_inv _ _ _ _ _ _ Hasm) as (Hto & _ & _ & Hmr & _).
  exists raw, reordered.
  split; [exact Hraw|]. split; [exact Hcb|]. split; [exact Hfull|].
  split; [|split; [exact Hmr | exact Hhash]].
  rewrite (mapM_index_map _ _ _ Hre).
  assert (Hp : tx_order ≡ₚ py.range (Z.of_nat (length (transactions self)))).
  { rewrite Hto. unfold step_tx_order.
    rewrite fix_permutation_repair, <- (spec.wf_num_txs _ Hwf).
    apply repair_Permutation. }
  apply (Permutation_map
           (fun i => nth (Z.to_nat (if i <? 0
                                    then i + Z.of_nat (length (transactions self))
                                    else i))
                       (transactions self) EmptyString)) in Hp.
  rewrite map_nth_range in Hp. exact Hp.
Qed.

Lemma step_block_contents_witness :
  exists self' r reordered,
    step examples.env0 examples.miss [] = Ok (self', r) /\
    reordered ≡ₚ constants.TRANSACTIONS /\
    info_full_tx_list (info r) = info_coinbase_tx (info r) :: reordered.
Proof.
  pose proof step_missed as E. unfold examples.missed in E.
  match type of E with _ = Ok (?s, ?r) => exists s, r end.
  destruct (step_block_contents _ _ _ _ _ (init_well_formed _ _ env0_init) E)
    as (raw & reordered & _ & _ & Hfull & Hperm & _).
  exists reordered. split; [exact E|]. split; [exact Hperm | exact Hfull].
Defined.

(** The observation [step] returns shows the nonce of the action, the
    repaired ordering (a permutation of the indices of the pool the step
    started with, also after a found block has replaced the pool), the bytes
    of the previous hash now stored, and [base_timestamp]. *)
Theorem step_observation self action urandom self' r :
  step self action urandom = Ok (self', r) ->
  obs_nonce (observation r) = a_nonce action /\
  obs_tx_order (observation r) = step_tx_order (num_txs self) (a_tx_order action) /\
  obs_tx_order (observation r) ≡ₚ py.range (num_txs self) /\
  current_tx_order self' = obs_tx_order (observation r) /\
  py.fromhex (previousblockhash self') = Ok (obs_previousblockhash (observation r)) /\
  obs_timestamp (observation r) = base_timestamp self /\
  obs_version (observation r) = version self /\
  obs_bits (observation r) = bits self.
Proof.
  intros Hstep.
  apply step_inv in Hstep
    as (tx_order & cb & full & hf & block_hash & h & Hasm & _ & _ & _ & _
          & Hobs & Hv & Hb & _ & _ & Hn & Hts & Hto & _).
  destruct (assemble_inv _ _ _ _ _ _ Hasm) as (Horder & _).
  unfold _get_obs in Hobs. bind_inv Hobs. apply Ok_inj in Hobs.
  rewrite <- Hobs.
  cbn [obs_nonce obs_tx_order obs_previousblockhash obs_timestamp obs_version obs_bits].
  rewrite Hn, Hto, Hts, Hv, Hb, Horder.
  repeat (split; [first [reflexivity | exact E]|]); try reflexivity.
  split.
  - unfold step_tx_order. rewrite fix_permutation_repair. apply repair_Permutation.
  - repeat (split; [first [reflexivity | exact E]|]); reflexivity.
Qed.

Lemma step_observation_witness :
  exists self' r,
    step examples.env0 examples.hit examples.draws = Ok (self', r) /\
    obs_nonce (observation r) = 494 /\
    length (obs_tx_order (observation r)) = 7%nat /\
    num_txs self' = 2.
Proof.
  pose proof step_found as E. unfold examples.found in E.
  match type of E with _ = Ok (?s, ?r) => exists s, r end.
  destruct (step_observation _ _ _ _ _ E) as (Hn & _).
  split; [exact E|]. split; [exact Hn|]. split; reflexivity.
Defined.

End StepContents.
